(** * Ragno step 1, graph decomposition: [decompose_corpus.py]

    A shallow embedding of [docs/ignore/ragno/decompose_corpus.py] and the
    properties of its pipeline (chunk -> units -> entities -> relationships).

    The file has two layers.
    - A value-level embedding: the classes are records, the local
      accumulators of [decompose_corpus] are threaded through the loops as
      an explicit state, the exception of a failed constructor call is the
      left summand of [exn + _].
    - An object-level embedding ([Module Heap]): Python objects live in a
      store and are referred to by address, lists and dicts are mutated in
      place. It is related to the value-level embedding by a read-back
      theorem, and carries the properties that speak about mutation and
      about state kept between runs. *)

From stdpp Require Import gmap strings list fin_maps.

Open Scope string_scope.
Open Scope list_scope.

(** ** Data model: the four classes *)

(** [class TextChunk], lines 9-12. *)
Module TextChunk.
Record t := new { content : string; source : string }.
End TextChunk.

(** [class SemanticUnit], lines 14-18. *)
Module SemanticUnit.
Record t := new { text : string; summary : string; source : string }.
End SemanticUnit.

(** [class Entity], lines 20-23. *)
Module Entity.
Record t := new { name : string; is_entry_point : bool }.
(** [def __init__(self, name, is_entry_point=True)] called with the name only. *)
Definition new1 (name : string) : t := new name true.
End Entity.

(** [class Relationship], lines 25-29. *)
Module Relationship.
Record t := new { description : string; source : string; target : string }.
End Relationship.

#[global] Instance TextChunk_eq_dec : EqDecision TextChunk.t.
Proof. solve_decision. Defined.
#[global] Instance SemanticUnit_eq_dec : EqDecision SemanticUnit.t.
Proof. solve_decision. Defined.
#[global] Instance Entity_eq_dec : EqDecision Entity.t.
Proof. solve_decision. Defined.
#[global] Instance Relationship_eq_dec : EqDecision Relationship.t.
Proof. solve_decision. Defined.

(** ** Exceptions *)

(** The ways in which this program can meet a [TypeError]: binding keyword
    arguments to the parameters of [__init__(self, content, source)] fails
    on a keyword that names no parameter, on a keyword that names the
    parameter [self], which the call has filled already, and on a parameter
    left without a value; a list or a dict cannot be a dict key; only a
    list is iterated and only a dict is assigned an item. *)
Inductive bad_call :=
  | UnexpectedKeyword   (* got an unexpected keyword argument *)
  | MultipleValues      (* got multiple values for argument 'self' *)
  | UnexpectedOrMultiple
      (* one of the two above: keywords of both kinds are present, and the
         first of them in the order of the keys decides *)
  | MissingArgument     (* missing required positional argument(s) *)
  | Unhashable          (* unhashable type *)
  | NotIterable         (* object is not iterable *)
  | NotSubscriptable.   (* object does not support item assignment *)

Inductive exn :=
  | TypeError (why : bad_call)
  | AttributeError (attr : string).

#[global] Instance bad_call_eq_dec : EqDecision bad_call.
Proof. solve_decision. Defined.
#[global] Instance exn_eq_dec : EqDecision exn.
Proof. solve_decision. Defined.

(** ** Python's [dict]: insertion-ordered, keys unique

    [entities = {}] is a built-in dict. Its entries are kept
    in the order in which their keys were first inserted; [d[k] = v] on a
    key already present replaces the value and keeps the entry's place. *)
Section PyDict.
Context {K V : Type} `{EqDecision K}.

Fixpoint dict_setitem (d : list (K * V)) (k : K) (v : V) : list (K * V) :=
  match d with
  | [] => [(k, v)]
  | (k', v') :: d' =>
      if decide (k' = k) then (k', v) :: d'
      else (k', v') :: dict_setitem d' k v
  end.

Fixpoint dict_get (d : list (K * V)) (k : K) : option V :=
  match d with
  | [] => None
  | (k', v') :: d' => if decide (k' = k) then Some v' else dict_get d' k
  end.

Definition dict_keys (d : list (K * V)) : list K := d.*1.
Definition dict_values (d : list (K * V)) : list V := d.*2.
End PyDict.

(** ** Chunk ingestion: the constructor call of line 51

    An input record is a dict from field names to strings. The call unpacks
    it with the double-star operator and binds its entries as keyword
    arguments of [TextChunk.__init__(self, content, source)]. The new
    instance is passed as the first positional argument, so [self] has its
    value before the keywords are bound and the keywords can fill [content]
    and [source] only. The keywords are bound in the order of the record's
    keys, and the binding stops at the first key that names no parameter
    (unexpected keyword) or names [self] (multiple values). A record, as
    modelled, does not keep the order of its keys: when keys of both kinds
    are present the reason is one of the two. After the keywords, a
    parameter left without a value is reported. *)
Definition TextChunk_params : gset string := {[ "content"; "source" ]}.

(** All the parameter names of [__init__]. *)
Definition TextChunk_signature : gset string := {[ "self" ]} ∪ TextChunk_params.

(** The error, if any, of binding the keys of a record as keywords. *)
Definition bind_keywords (kwargs : gmap string string) : option bad_call :=
  match bool_decide (dom kwargs ⊆ TextChunk_signature),
        bool_decide ("self" ∈ dom kwargs) with
  | true, false => None
  | false, false => Some UnexpectedKeyword
  | true, true => Some MultipleValues
  | false, true => Some UnexpectedOrMultiple
  end.

Definition TextChunk_init (chunk_data : gmap string string) : exn + TextChunk.t :=
  match bind_keywords chunk_data with
  | Some why => inl (TypeError why)
  | None =>
      match chunk_data !! "content", chunk_data !! "source" with
      | Some c, Some s => inr (TextChunk.new c s)
      | _, _ => inl (TypeError MissingArgument)
      end
  end.

(** ** The three placeholder extractors, lines 33-44 *)

Definition extract_semantic_units (chunk : TextChunk.t) : list SemanticUnit.t :=
  [SemanticUnit.new (TextChunk.content chunk) "Mock summary" (TextChunk.source chunk)].

Definition extract_entities (unit : SemanticUnit.t) : list Entity.t :=
  [Entity.new1 "MockEntity"].

Definition extract_relationships (unit : SemanticUnit.t) : list Relationship.t :=
  [Relationship.new "MockRel" "MockEntityA" "MockEntityB"].

(** ** The orchestrator, lines 46-62 *)

(** The three local accumulators of [decompose_corpus]. *)
Record locals := Locals {
  l_units : list SemanticUnit.t;
  l_entities : list (string * Entity.t);
  l_relationships : list Relationship.t
}.

(** The returned dict, with its three fixed keys as fields. *)
Record Result := mkResult {
  units : list SemanticUnit.t;
  entities : list Entity.t;
  relationships : list Relationship.t
}.

#[global] Instance Result_eq_dec : EqDecision Result.
Proof. solve_decision. Defined.

(** [for entity in ...: entities[entity.name] = entity], lines 54-55. *)
Definition store_entities (d : list (string * Entity.t)) (es : list Entity.t)
  : list (string * Entity.t) :=
  foldl (fun d entity => dict_setitem d (Entity.name entity) entity) d es.

(** The body of [for unit in extract_semantic_units(chunk)], lines 53-57. *)
Definition unit_body (st : locals) (unit : SemanticUnit.t) : locals :=
  {| l_units := l_units st ++ [unit];
     l_entities := store_entities (l_entities st) (extract_entities unit);
     l_relationships :=
       foldl (fun rs rel => rs ++ [rel]) (l_relationships st)
             (extract_relationships unit) |}.

(** The body of [for chunk_data in text_chunks], lines 51-57. *)
Definition chunk_body (st : locals) (chunk_data : gmap string string)
  : exn + locals :=
  match TextChunk_init chunk_data with
  | inl e => inl e
  | inr chunk => inr (foldl unit_body st (extract_semantic_units chunk))
  end.

(** The outer loop; an exception leaves it at once. *)
Fixpoint for_chunks (text_chunks : list (gmap string string)) (st : locals)
  : exn + locals :=
  match text_chunks with
  | [] => inr st
  | chunk_data :: rest =>
      match chunk_body st chunk_data with
      | inl e => inl e
      | inr st' => for_chunks rest st'
      end
  end.

Definition decompose_corpus (text_chunks : list (gmap string string))
  : exn + Result :=
  match for_chunks text_chunks (Locals [] [] []) with
  | inl e => inl e
  | inr st =>
      inr {| units := l_units st;
             entities := dict_values (l_entities st);
             relationships := l_relationships st |}
  end.

(** The example of the [__main__] block, lines 66-69. *)
Definition sample_chunks : list (gmap string string) :=
  [ {[ "content" := "Hinton invented backprop."; "source" := "doc1.txt" ]};
    {[ "content" := "LeCun developed convolutional nets."; "source" := "doc2.txt" ]} ].

(** ** Object-level embedding

    Objects live in a store and are referred to by their address. An
    instance carries its class and its attribute dict; [__init__] fills the
    attributes one assignment at a time. Lists and dicts are objects too,
    and [append] and item assignment update them in place. Strings and
    booleans are immutable and are held by value. The input records are
    only read by [decompose_corpus] and are passed by value. *)
Module Heap.

Abbreviation addr := nat (only parsing).

Inductive value :=
  | VStr (s : string)
  | VBool (b : bool)
  | VRef (a : addr).

Inductive cls := CTextChunk | CSemanticUnit | CEntity | CRelationship.

Inductive obj :=
  | OInstance (c : cls) (attrs : gmap string value)
  | OList (items : list value)
  | ODict (entries : list (value * value)).

#[global] Instance value_eq_dec : EqDecision value.
Proof. solve_decision. Defined.
#[global] Instance cls_eq_dec : EqDecision cls.
Proof. solve_decision. Defined.

(** The store; allocation appends, so the next address is its length. *)
Abbreviation heap := (list obj) (only parsing).

(** Computations on the store. [None] is a dangling address, which no
    Python program can produce; an exception keeps the store as it is
    at the point of the [raise]. *)
Definition M (A : Type) : Type := heap -> option (heap * (exn + A)).

Definition ret {A} (x : A) : M A := fun h => Some (h, inr x).
Definition raise {A} (e : exn) : M A := fun h => Some (h, inl e).
Definition bind {A B} (m : M A) (k : A -> M B) : M B :=
  fun h =>
    match m h with
    | None => None
    | Some (h', inl e) => Some (h', inl e)
    | Some (h', inr x) => k x h'
    end.

Notation "x <- m ;; k" := (bind m (fun x => k))
  (at level 100, m at next level, right associativity).
Notation "m ;;; k" := (bind m (fun _ => k))
  (at level 100, right associativity).

Definition alloc (o : obj) : M addr := fun h => Some (h ++ [o], inr (length h)).
Definition load (a : addr) : M obj :=
  fun h => match h !! a with Some o => Some (h, inr o) | None => None end.
Definition store (a : addr) (o : obj) : M () :=
  fun h => match h !! a with Some _ => Some (<[a := o]> h, inr tt) | None => None end.

(** [v.n], for the attribute names of this program ([content], [source],
    [name]), which no built-in list, dict, str or bool has. *)
Definition getattr (v : value) (n : string) : M value :=
  match v with
  | VRef a =>
      o <- load a ;;
      match o with
      | OInstance _ attrs =>
          match attrs !! n with
          | Some x => ret x
          | None => raise (AttributeError n)
          end
      | _ => raise (AttributeError n)
      end
  | _ => raise (AttributeError n)
  end.

(** [self.n = x] on an instance. *)
Definition setattr (a : addr) (n : string) (x : value) : M () :=
  o <- load a ;;
  match o with
  | OInstance c attrs => store a (OInstance c (<[n := x]> attrs))
  | _ => raise (AttributeError n)
  end.

(** [l.append(x)]. *)
Definition list_append (l : value) (x : value) : M () :=
  match l with
  | VRef a =>
      o <- load a ;;
      match o with
      | OList items => store a (OList (items ++ [x]))
      | _ => raise (AttributeError "append")
      end
  | _ => raise (AttributeError "append")
  end.

(** The items a [for] loop over [l] visits: the items of a list, the keys
    of a dict, the characters of a string. The loops of this program run
    over lists their bodies do not touch, so the items are read once. *)
Definition list_items (l : value) : M (list value) :=
  match l with
  | VRef a =>
      o <- load a ;;
      match o with
      | OList items => ret items
      | ODict entries => ret (dict_keys entries)
      | OInstance _ _ => raise (TypeError NotIterable)
      end
  | VStr s => ret ((λ c, VStr (String c EmptyString)) <$> String.list_ascii_of_string s)
  | VBool _ => raise (TypeError NotIterable)
  end.

(** [hash(k)] succeeds on strings, booleans and instances of the four
    classes (which define neither [__eq__] nor [__hash__]). *)
Definition hashable (k : value) : M () :=
  match k with
  | VRef a =>
      o <- load a ;;
      match o with
      | OInstance _ _ => ret tt
      | _ => raise (TypeError Unhashable)
      end
  | _ => ret tt
  end.

(** [d[k] = x] on the dict at address [d]. *)
Definition dict_store (d : addr) (k x : value) : M () :=
  o <- load d ;;
  match o with
  | ODict entries =>
      hashable k ;;;
      store d (ODict (dict_setitem entries k x))
  | _ => raise (TypeError NotSubscriptable)
  end.

(** [list(d.values())]: a new list object. *)
Definition dict_values_list (d : addr) : M value :=
  o <- load d ;;
  match o with
  | ODict entries => a <- alloc (OList (dict_values entries)) ;; ret (VRef a)
  | _ => raise (AttributeError "values")
  end.

Fixpoint for_each {A} (l : list A) (body : A -> M unit) : M () :=
  match l with
  | [] => ret tt
  | x :: l' => body x ;;; for_each l' body
  end.

(** *** The classes: [__new__] allocates, [__init__] assigns *)

Definition TextChunk_new (kwargs : gmap string string) : M value :=
  self <- alloc (OInstance CTextChunk ∅) ;;
  match bind_keywords kwargs with
  | Some why => raise (TypeError why)
  | None =>
      match kwargs !! "content", kwargs !! "source" with
      | Some c, Some s =>
          setattr self "content" (VStr c) ;;;
          setattr self "source" (VStr s) ;;;
          ret (VRef self)
      | _, _ => raise (TypeError MissingArgument)
      end
  end.

Definition SemanticUnit_new (text summary source : value) : M value :=
  self <- alloc (OInstance CSemanticUnit ∅) ;;
  setattr self "text" text ;;;
  setattr self "summary" summary ;;;
  setattr self "source" source ;;;
  ret (VRef self).

Definition Entity_new (name is_entry_point : value) : M value :=
  self <- alloc (OInstance CEntity ∅) ;;
  setattr self "name" name ;;;
  setattr self "is_entry_point" is_entry_point ;;;
  ret (VRef self).

Definition Relationship_new (description source target : value) : M value :=
  self <- alloc (OInstance CRelationship ∅) ;;
  setattr self "description" description ;;;
  setattr self "source" source ;;;
  setattr self "target" target ;;;
  ret (VRef self).

(** *** The extractors *)

Definition extract_semantic_units (chunk : value) : M value :=
  c <- getattr chunk "content" ;;
  s <- getattr chunk "source" ;;
  u <- SemanticUnit_new c (VStr "Mock summary") s ;;
  l <- alloc (OList [u]) ;;
  ret (VRef l).

Definition extract_entities (unit : value) : M value :=
  e <- Entity_new (VStr "MockEntity") (VBool true) ;;
  l <- alloc (OList [e]) ;;
  ret (VRef l).

Definition extract_relationships (unit : value) : M value :=
  r <- Relationship_new (VStr "MockRel") (VStr "MockEntityA") (VStr "MockEntityB") ;;
  l <- alloc (OList [r]) ;;
  ret (VRef l).

(** *** The orchestrator *)

Definition unit_body (units entities relationships : addr) (unit : value) : M () :=
  list_append (VRef units) unit ;;;
  es <- extract_entities unit ;;
  es_items <- list_items es ;;
  for_each es_items (fun entity =>
    name <- getattr entity "name" ;;
    dict_store entities name entity) ;;;
  rs <- extract_relationships unit ;;
  rs_items <- list_items rs ;;
  for_each rs_items (fun rel => list_append (VRef relationships) rel).

Definition chunk_body (units entities relationships : addr)
    (chunk_data : gmap string string) : M () :=
  chunk <- TextChunk_new chunk_data ;;
  us <- extract_semantic_units chunk ;;
  us_items <- list_items us ;;
  for_each us_items (unit_body units entities relationships).

Definition decompose_corpus (text_chunks : list (gmap string string)) : M value :=
  units <- alloc (OList []) ;;
  entities <- alloc (ODict []) ;;
  relationships <- alloc (OList []) ;;
  for_each text_chunks (chunk_body units entities relationships) ;;;
  values <- dict_values_list entities ;;
  result <- alloc (ODict [ (VStr "units", VRef units);
                           (VStr "entities", values);
                           (VStr "relationships", VRef relationships) ]) ;;
  ret (VRef result).

(** *** Reading objects back as values *)

Definition read_str (v : value) : option string :=
  match v with VStr s => Some s | _ => None end.
Definition read_bool (v : value) : option bool :=
  match v with VBool b => Some b | _ => None end.

Definition read_attrs (h : heap) (c : cls) (v : value) : option (gmap string value) :=
  match v with
  | VRef a =>
      match h !! a with
      | Some (OInstance c' attrs) => if decide (c' = c) then Some attrs else None
      | _ => None
      end
  | _ => None
  end.

Definition read_chunk (h : heap) (v : value) : option TextChunk.t :=
  attrs ← read_attrs h CTextChunk v;
  c ← attrs !! "content" ≫= read_str;
  s ← attrs !! "source" ≫= read_str;
  Some (TextChunk.new c s).

Definition read_unit (h : heap) (v : value) : option SemanticUnit.t :=
  attrs ← read_attrs h CSemanticUnit v;
  t ← attrs !! "text" ≫= read_str;
  m ← attrs !! "summary" ≫= read_str;
  s ← attrs !! "source" ≫= read_str;
  Some (SemanticUnit.new t m s).

Definition read_entity (h : heap) (v : value) : option Entity.t :=
  attrs ← read_attrs h CEntity v;
  n ← attrs !! "name" ≫= read_str;
  b ← attrs !! "is_entry_point" ≫= read_bool;
  Some (Entity.new n b).

Definition read_relationship (h : heap) (v : value) : option Relationship.t :=
  attrs ← read_attrs h CRelationship v;
  d ← attrs !! "description" ≫= read_str;
  s ← attrs !! "source" ≫= read_str;
  t ← attrs !! "target" ≫= read_str;
  Some (Relationship.new d s t).

Definition read_list {A} (rd : value -> option A) (h : heap) (v : value)
  : option (list A) :=
  match v with
  | VRef a =>
      match h !! a with
      | Some (OList items) => mapM rd items
      | _ => None
      end
  | _ => None
  end.

(** The returned dict, read field by field. *)
Definition read_result (h : heap) (v : value) : option Result :=
  match v with
  | VRef a =>
      match h !! a with
      | Some (ODict entries) =>
          us ← dict_get entries (VStr "units") ≫= read_list (read_unit h) h;
          es ← dict_get entries (VStr "entities") ≫= read_list (read_entity h) h;
          rs ← dict_get entries (VStr "relationships")
                 ≫= read_list (read_relationship h) h;
          Some (mkResult us es rs)
      | _ => None
      end
  | _ => None
  end.

(** What a caller sees of a run: the exception, or the result read back
    from the store the run leaves. *)
Definition observe (out : option (heap * (exn + value))) : option (exn + Result) :=
  match out with
  | None => None
  | Some (_, inl e) => Some (inl e)
  | Some (h, inr v) => inr <$> read_result h v
  end.

(** *** The store during a run

    A run started on the store [h0] allocates its three accumulators first,
    at the addresses [length h0], [length h0 + 1] and [length h0 + 2];
    whatever it allocates later follows them. *)
Definition layout (h0 : heap) (us : list value) (es : list (value * value))
    (rs : list value) (tail : heap) : heap :=
  h0 ++ OList us :: ODict es :: OList rs :: tail.

(** Every instance of [h] is in [h'], at its address and with its
    attributes as they were. *)
Definition instances_kept (h h' : heap) : Prop :=
  ∀ a c attrs, h !! a = Some (OInstance c attrs) → h' !! a = Some (OInstance c attrs).

(** The entries of a dict object read as the entries of the value-level
    dict: same order, each key the string of the name, each value an
    [Entity] instance. *)
Definition reads_entries (h : heap) (es : list (value * value))
    (d : list (string * Entity.t)) : Prop :=
  Forall2 (λ kv ke, kv.1 = VStr ke.1 ∧ read_entity h kv.2 = Some ke.2) es d.

(** The three accumulator objects read as the value-level accumulators. *)
Definition represents (h : heap) (us : list value) (es : list (value * value))
    (rs : list value) (st : locals) : Prop :=
  mapM (read_unit h) us = Some (l_units st) ∧
  reads_entries h es (l_entities st) ∧
  mapM (read_relationship h) rs = Some (l_relationships st).

End Heap.

(** ** Vocabulary of the properties *)

(** A well-formed input record has exactly the fields [content] and [source]. *)
Definition well_formed (chunk_data : gmap string string) : Prop :=
  dom chunk_data = TextChunk_params.

#[global] Instance well_formed_dec d : Decision (well_formed d).
Proof. unfold well_formed. apply _. Defined.

(** A record that lacks one of the two fields. *)
Definition lacks_field (chunk_data : gmap string string) : Prop :=
  chunk_data !! "content" = None ∨ chunk_data !! "source" = None.


(** The keys of a sequence in the order of their first occurrence. *)
Fixpoint first_seen (ks : list string) : list string :=
  match ks with
  | [] => []
  | k :: ks' => k :: filter (λ k', k' ≠ k) (first_seen ks')
  end.

(** The entities with a given name, in the order given. *)
Definition named (n : string) (es : list Entity.t) : list Entity.t :=
  filter (λ e, Entity.name e = n) es.

(** The chunks built from the records of a run that does not raise. *)
Definition ingested (chunks : list (gmap string string)) (cs : list TextChunk.t) : Prop :=
  Forall2 (λ d c, TextChunk_init d = inr c) chunks cs.

(** Every entry of the dict is filed under the name of its entity. *)
Definition keyed_by_name (d : list (string * Entity.t)) : Prop :=
  Forall (λ ke, ke.1 = Entity.name ke.2) d.

(** The example with the source of its second record left out, and with a
    field added to its first record. *)
Definition sample_missing_source : list (gmap string string) :=
  [ {[ "content" := "Hinton invented backprop."; "source" := "doc1.txt" ]};
    {[ "content" := "LeCun developed convolutional nets." ]} ].

Definition sample_extra_field : list (gmap string string) :=
  [ {[ "content" := "Hinton invented backprop."; "source" := "doc1.txt";
       "page" := "3" ]};
    {[ "content" := "LeCun developed convolutional nets."; "source" := "doc2.txt" ]} ].

(** The instances the run builds for a chunk, and the two instances of the
    baseline. *)
Definition chunk_instance (c : TextChunk.t) : Heap.obj :=
  Heap.OInstance Heap.CTextChunk
    (<["source" := Heap.VStr (TextChunk.source c)]>
       (<["content" := Heap.VStr (TextChunk.content c)]> ∅)).

Definition unit_instance (c : TextChunk.t) : Heap.obj :=
  Heap.OInstance Heap.CSemanticUnit
    (<["source" := Heap.VStr (TextChunk.source c)]>
       (<["summary" := Heap.VStr "Mock summary"]>
          (<["text" := Heap.VStr (TextChunk.content c)]> ∅))).

Definition entity_instance : Heap.obj :=
  Heap.OInstance Heap.CEntity
    (<["is_entry_point" := Heap.VBool true]>
       (<["name" := Heap.VStr "MockEntity"]> ∅)).

Definition relationship_instance : Heap.obj :=
  Heap.OInstance Heap.CRelationship
    (<["target" := Heap.VStr "MockEntityB"]>
       (<["source" := Heap.VStr "MockEntityA"]>
          (<["description" := Heap.VStr "MockRel"]> ∅))).

(** The seven objects the loop body allocates for one record, in the order
    of their allocation, the first of them at the address [n]: the chunk,
    its unit and the list of the unit, the entity and its list, the
    relationship and its list. *)
Definition chunk_objects (n : nat) (c : TextChunk.t) : list Heap.obj :=
  [ chunk_instance c;
    unit_instance c; Heap.OList [Heap.VRef (n + 1)];
    entity_instance; Heap.OList [Heap.VRef (n + 3)];
    relationship_instance; Heap.OList [Heap.VRef (n + 5)] ].

Fixpoint run_objects (n : nat) (cs : list TextChunk.t) : list Heap.obj :=
  match cs with
  | [] => []
  | c :: cs' => chunk_objects n c ++ run_objects (n + 7) cs'
  end.

(** The references to the objects at the place [off] of each of [k]
    groups of seven that start at [n]. *)
Definition refs (n off k : nat) : list Heap.value :=
  (λ i, Heap.VRef (n + 7 * i + off)) <$> seq 0 k.

(** The entries of the entities dict after [k] records: the one name, and
    the entity of the last record. *)
Definition kept_entity (n k : nat) : list (Heap.value * Heap.value) :=
  match k with
  | 0 => []
  | S k' => [(Heap.VStr "MockEntity", Heap.VRef (n + 7 * k' + 3))]
  end.

(** The input record a unit comes from: its text as content, its source as
    source. *)
Definition record_of_unit (u : SemanticUnit.t) : gmap string string :=
  {[ "content" := SemanticUnit.text u; "source" := SemanticUnit.source u ]}.

(** The name-keyed dict whose values are the entities [es], in order. *)
Definition rekey (es : list Entity.t) : list (string * Entity.t) :=
  (λ e, (Entity.name e, e)) <$> es.

(** The result of a second batch joined to the result of a first: units and
    relationships follow one another, the entities of the second are stored
    into the name-keyed dict of the first, with the assignment of line 55. *)
Definition merge_results (r1 r2 : Result) : Result :=
  {| units := units r1 ++ units r2;
     entities := dict_values (store_entities (rekey (entities r1)) (entities r2));
     relationships := relationships r1 ++ relationships r2 |}.

(** The outcome of two batches run one after the other: the first
    exception met, or the two results joined. *)
Definition then_batch (o1 o2 : exn + Result) : exn + Result :=
  match o1, o2 with
  | inl e, _ => inl e
  | inr _, inl e => inl e
  | inr r1, inr r2 => inr (merge_results r1 r2)
  end.



(** The one entity of the baseline. *)
Definition MockEntity : Entity.t := Entity.new "MockEntity" true.

(** The one relationship of the baseline. *)
Definition MockRel : Relationship.t :=
  Relationship.new "MockRel" "MockEntityA" "MockEntityB".

(** ** Properties of the value-level embedding *)

Section Ingestion.
Implicit Types (d : gmap string string) (c : TextChunk.t).

Lemma well_formed_lookup d :
  well_formed d → is_Some (d !! "content") ∧ is_Some (d !! "source").
Proof.
  unfold well_formed, TextChunk_params. intros Hd.
  split; apply elem_of_dom; rewrite Hd; set_solver.
Qed.

Lemma bind_keywords_None d :
  bind_keywords d = None ↔ dom d ⊆ TextChunk_params.
Proof.
  unfold bind_keywords, TextChunk_signature, TextChunk_params.
  destruct (bool_decide_reflect (dom d ⊆ {["self"]} ∪ {["content"; "source"]}))
    as [Hsig|Hsig];
    destruct (bool_decide_reflect ("self" ∈ dom d)) as [Hself|Hself].
  - split; [done|]. intros Hsub. apply Hsub in Hself.
    apply elem_of_union in Hself as [?%elem_of_singleton|?%elem_of_singleton];
      done.
  - split; [|done]. intros _ k Hk. pose proof (Hsig k Hk) as Hk'.
    apply elem_of_union in Hk' as [->%elem_of_singleton|Hk']; done.
  - split; [done|]. intros Hsub. apply Hsub in Hself.
    apply elem_of_union in Hself as [?%elem_of_singleton|?%elem_of_singleton];
      done.
  - split; [done|]. intros Hsub. destruct Hsig. intros k Hk.
    apply elem_of_union. right. by apply Hsub.
Qed.

Lemma TextChunk_init_inr d c :
  TextChunk_init d = inr c ↔
  well_formed d ∧ d !! "content" = Some (TextChunk.content c)
                ∧ d !! "source" = Some (TextChunk.source c).
Proof.
  unfold TextChunk_init. split.
  - destruct (bind_keywords d) as [why|] eqn:Hbind; [done|].
    apply bind_keywords_None in Hbind as Hsub.
    destruct (d !! "content") as [x|] eqn:Hc; [|done].
    destruct (d !! "source") as [y|] eqn:Hs; [|done].
    intros [= <-]. split_and!; [|done..].
    unfold well_formed. apply set_eq. intros k. split; [set_solver|].
    unfold TextChunk_params.
    rewrite elem_of_union, !elem_of_singleton, elem_of_dom.
    intros [->| ->]; eauto.
  - intros (Hwf & Hc & Hs).
    rewrite (proj2 (bind_keywords_None d)) by by rewrite Hwf.
    rewrite Hc, Hs. by destruct c.
Qed.

Lemma TextChunk_init_well_formed d :
  well_formed d → ∃ c, TextChunk_init d = inr c.
Proof.
  intros Hwf. destruct (well_formed_lookup d Hwf) as [[x Hx] [y Hy]].
  exists (TextChunk.new x y). by apply TextChunk_init_inr.
Qed.

Lemma TextChunk_init_inl d e :
  TextChunk_init d = inl e →
  ¬ well_formed d ∧ ∃ why, e = TypeError why.
Proof.
  intros He. split.
  - intros [c Hc]%TextChunk_init_well_formed. congruence.
  - unfold TextChunk_init in He. destruct (bind_keywords d) as [why|].
    + injection He as <-. eauto.
    + destruct (d !! "content"), (d !! "source"); simplify_eq; eauto.
Qed.

Lemma lacks_field_not_well_formed d : lacks_field d → ¬ well_formed d.
Proof.
  intros Hl [[x Hx] [y Hy]]%well_formed_lookup. destruct Hl; congruence.
Qed.


Lemma not_well_formed_inl d :
  ¬ well_formed d → ∃ why, TextChunk_init d = inl (TypeError why).
Proof.
  intros Hn. destruct (TextChunk_init d) as [e|c] eqn:He.
  - destruct (TextChunk_init_inl d e He) as [_ [why ->]]; eauto.
  - apply TextChunk_init_inr in He. naive_solver.
Qed.
End Ingestion.



Example sample_run :
  decompose_corpus sample_chunks =
  inr {| units := [SemanticUnit.new "Hinton invented backprop." "Mock summary" "doc1.txt";
                   SemanticUnit.new "LeCun developed convolutional nets." "Mock summary" "doc2.txt"];
         entities := [Entity.new "MockEntity" true];
         relationships := [Relationship.new "MockRel" "MockEntityA" "MockEntityB";
                           Relationship.new "MockRel" "MockEntityA" "MockEntityB"] |}.
Proof. vm_compute. reflexivity. Qed.

Example sample_run_heap :
  Heap.observe (Heap.decompose_corpus sample_chunks []) = Some (decompose_corpus sample_chunks).
Proof. vm_compute. reflexivity. Qed.

(** *** The insertion-ordered dict *)
Section PyDictFacts.
Context {K V : Type} `{EqDecision K}.
Implicit Types (d : list (K * V)) (k : K) (v : V).

Lemma dict_setitem_keys d k v :
  dict_keys (dict_setitem d k v) =
  if decide (k ∈ dict_keys d) then dict_keys d else dict_keys d ++ [k].
Proof.
  unfold dict_keys. induction d as [|[k' v'] d IH]; [done|].
  cbn [dict_setitem].
  destruct (decide (k' = k)) as [->|Hne]; rewrite !fmap_cons; cbn [fst].
  - rewrite decide_True; [done | left].
  - (* a different first key *)
    rewrite IH. destruct (decide (k ∈ d.*1)) as [Hin|Hnin].
    + rewrite decide_True; [done | by right].
    + rewrite decide_False; [done|].
      intros [?|?]%elem_of_cons; congruence.
Qed.

Lemma dict_setitem_NoDup d k v :
  NoDup (dict_keys d) → NoDup (dict_keys (dict_setitem d k v)).
Proof.
  intros Hd. rewrite dict_setitem_keys. case_decide; [done|].
  apply NoDup_app. split_and!; [done| |apply NoDup_singleton].
  intros x Hx ->%list_elem_of_singleton. done.
Qed.

Lemma dict_get_setitem d k v k' :
  dict_get (dict_setitem d k v) k' =
  if decide (k = k') then Some v else dict_get d k'.
Proof.
  induction d as [|[k0 v0] d IH]; simpl.
  - by destruct (decide (k = k')).
  - destruct (decide (k0 = k)) as [->|Hne]; simpl.
    + by destruct (decide (k = k')).
    + rewrite IH. destruct (decide (k0 = k')) as [->|]; [|done].
      by rewrite decide_False.
Qed.

Lemma dict_get_Some d k v :
  NoDup (dict_keys d) → (k, v) ∈ d ↔ dict_get d k = Some v.
Proof.
  unfold dict_keys. induction d as [|[k0 v0] d IH]; simpl; intros Hd.
  - split; [by intros ?%elem_of_nil | done].
  - apply NoDup_cons in Hd as [Hk0 Hd]. rewrite elem_of_cons.
    destruct (decide (k0 = k)) as [->|Hne].
    + split; [|naive_solver]. intros [[= ->]|Hin]; [done|].
      destruct Hk0. apply list_elem_of_fmap. by exists (k, v).
    + rewrite <- (IH Hd). naive_solver.
Qed.

Lemma dict_values_elem_of d v :
  v ∈ dict_values d ↔ ∃ k, (k, v) ∈ d.
Proof.
  unfold dict_values. rewrite list_elem_of_fmap. split.
  - intros ([k v'] & -> & Hin). by exists k.
  - intros (k & Hin). by exists (k, v).
Qed.
End PyDictFacts.

Lemma filter_all {A} (P : A → Prop) `{!∀ x, Decision (P x)} (l : list A) :
  Forall P l → filter P l = l.
Proof.
  induction 1 as [|x l Hx _ IH]; [done|].
  rewrite filter_cons_True by done. by rewrite IH.
Qed.

(** *** The entity aggregation, for any sequence of entities *)
Section Aggregation.
Implicit Types (d : list (string * Entity.t)) (es : list Entity.t).

Lemma dict_setitem_keyed d e :
  keyed_by_name d → keyed_by_name (dict_setitem d (Entity.name e) e).
Proof.
  unfold keyed_by_name. induction d as [|[k0 e0] d IH]; simpl; intros Hd.
  - by repeat constructor.
  - apply Forall_cons in Hd as [Hk Hd]. case_decide as Heq; simpl in *.
    + constructor; simpl; [congruence | done].
    + constructor; [done | by apply IH].
Qed.

Lemma store_entities_app d es1 es2 :
  store_entities d (es1 ++ es2) = store_entities (store_entities d es1) es2.
Proof. unfold store_entities. apply foldl_app. Qed.

Lemma store_entities_cons d e es :
  store_entities d (e :: es) =
  store_entities (dict_setitem d (Entity.name e) e) es.
Proof. done. Qed.

Lemma store_entities_NoDup d es :
  NoDup (dict_keys d) → NoDup (dict_keys (store_entities d es)).
Proof.
  revert d. induction es as [|e es IH]; intros d Hd; [done|].
  rewrite store_entities_cons. by apply IH, dict_setitem_NoDup.
Qed.

Lemma store_entities_keyed d es :
  keyed_by_name d → keyed_by_name (store_entities d es).
Proof.
  revert d. induction es as [|e es IH]; intros d Hd; [done|].
  rewrite store_entities_cons. by apply IH, dict_setitem_keyed.
Qed.

(** Iteration order: the keys already present keep their places, the
    new names follow in the order of their first insertion. *)
Lemma store_entities_keys d es :
  dict_keys (store_entities d es) =
  dict_keys d ++ filter (λ k, k ∉ dict_keys d) (first_seen (Entity.name <$> es)).
Proof.
  revert d. induction es as [|e es IH]; intros d.
  - simpl. by rewrite filter_nil, app_nil_r.
  - rewrite store_entities_cons, IH, dict_setitem_keys.
    set (n := Entity.name e). simpl. fold n.
    set (fs := first_seen (Entity.name <$> es)).
    destruct (decide (n ∈ dict_keys d)) as [Hin|Hnin].
    + rewrite filter_cons_False by naive_solver.
      rewrite list_filter_filter. f_equal. apply list_filter_iff.
      intros k. split; [|naive_solver]. intros Hk. split; [done|].
      by intros ->.
    + rewrite filter_cons_True by done.
      rewrite <- app_assoc. simpl. do 2 f_equal.
      rewrite list_filter_filter. apply list_filter_iff.
      intros k. rewrite elem_of_app, list_elem_of_singleton. naive_solver.
Qed.

(** Last write wins: the entry of a name is the last entity inserted
    under it, or the entry it had before when none was. *)
Lemma store_entities_get d es n :
  dict_get (store_entities d es) n =
  match last (named n es) with
  | Some e => Some e
  | None => dict_get d n
  end.
Proof.
  revert d. induction es as [|e es IH]; intros d; [done|].
  rewrite store_entities_cons, IH, dict_get_setitem. unfold named.
  destruct (decide (Entity.name e = n)) as [Heq|Hne].
  - rewrite filter_cons_True by done. rewrite last_cons.
    by destruct (last _).
  - by rewrite filter_cons_False by done.
Qed.

Lemma first_seen_NoDup ks : NoDup (first_seen ks).
Proof.
  induction ks as [|k ks IH]; simpl; [constructor|].
  apply NoDup_cons. split.
  - rewrite list_elem_of_filter. naive_solver.
  - by apply NoDup_filter.
Qed.

Lemma first_seen_elem_of ks k : k ∈ first_seen ks ↔ k ∈ ks.
Proof.
  induction ks as [|k0 ks IH]; simpl; [done|].
  rewrite !elem_of_cons, list_elem_of_filter, IH.
  destruct (decide (k = k0)); naive_solver.
Qed.

(** The aggregation from the empty dict, as the three facts that
    determine its values list. *)
Lemma store_entities_empty_spec es :
  let d := store_entities [] es in
  dict_keys d = first_seen (Entity.name <$> es) ∧
  Entity.name <$> dict_values d = first_seen (Entity.name <$> es) ∧
  ∀ e, e ∈ dict_values d → last (named (Entity.name e) es) = Some e.
Proof.
  intros d.
  assert (Hkeys : dict_keys d = first_seen (Entity.name <$> es)).
  { unfold d. rewrite store_entities_keys. simpl.
    apply filter_all, Forall_forall. intros ? _. apply not_elem_of_nil. }
  assert (Hkeyed : keyed_by_name d).
  { apply store_entities_keyed. constructor. }
  assert (Hnd : NoDup (dict_keys d)).
  { apply store_entities_NoDup. constructor. }
  split_and!; [done| |].
  - rewrite <- Hkeys. unfold dict_keys, dict_values.
    clear -Hkeyed. induction Hkeyed as [|[k e] d' Hk _ IH]; [done|].
    rewrite !fmap_cons, IH. simpl in Hk. by rewrite Hk.
  - intros e [k Hin]%dict_values_elem_of.
    assert (k = Entity.name e) as ->.
    { unfold keyed_by_name in Hkeyed. rewrite Forall_forall in Hkeyed.
      apply (Hkeyed _ Hin). }
    apply (dict_get_Some _ _ _ Hnd) in Hin.
    unfold d in Hin. rewrite store_entities_get in Hin.
    by destruct (last _).
Qed.
End Aggregation.

(** *** The loops of [decompose_corpus] *)
Section Loops.
Implicit Types (st : locals) (us : list SemanticUnit.t) (cs : list TextChunk.t).
Implicit Types (chunks : list (gmap string string)).

Lemma append_each {A} (l0 l : list A) :
  foldl (λ rs rel, rs ++ [rel]) l0 l = l0 ++ l.
Proof.
  revert l0. induction l as [|x l IH]; intros l0; simpl.
  - by rewrite app_nil_r.
  - by rewrite IH, <- app_assoc.
Qed.

(** The unit loop, run over any sequence of units. *)
Lemma unit_loop st us :
  foldl unit_body st us =
  {| l_units := l_units st ++ us;
     l_entities := store_entities (l_entities st) (us ≫= extract_entities);
     l_relationships := l_relationships st ++ (us ≫= extract_relationships) |}.
Proof.
  revert st. induction us as [|u us IH]; intros st.
  - simpl. rewrite !app_nil_r. by destruct st.
  - cbn [foldl]. rewrite IH. unfold unit_body.
    cbn [l_units l_entities l_relationships].
    rewrite append_each, !bind_cons, store_entities_app, <- !app_assoc. done.
Qed.

Lemma for_chunks_inr chunks st st' :
  for_chunks chunks st = inr st' ↔
  ∃ cs, ingested chunks cs ∧
        st' = foldl unit_body st (cs ≫= extract_semantic_units).
Proof.
  unfold ingested. revert st. induction chunks as [|d chunks IH]; intros st; simpl.
  - split.
    + intros [= <-]. exists []. split; [constructor | done].
    + intros (cs & ->%Forall2_nil_inv_l & ->). done.
  - unfold chunk_body. destruct (TextChunk_init d) as [e|c] eqn:Hd.
    + split; [done|]. intros (cs & Hcs & _).
      apply Forall2_cons_inv_l in Hcs as (c & cs' & Hc & _ & _). congruence.
    + rewrite IH. split.
      * intros (cs & Hcs & ->). exists (c :: cs). split; [by constructor|].
        by rewrite bind_cons, foldl_app.
      * intros (cs & Hcs & ->).
        apply Forall2_cons_inv_l in Hcs as (c' & cs' & Hc & Hcs' & ->).
        assert (c' = c) as -> by congruence.
        exists cs'. split; [done|]. by rewrite bind_cons, foldl_app.
Qed.

Lemma for_chunks_inl chunks st e :
  for_chunks chunks st = inl e ↔
  ∃ pre d post, chunks = pre ++ d :: post ∧ Forall well_formed pre ∧
                TextChunk_init d = inl e.
Proof.
  revert st. induction chunks as [|d chunks IH]; intros st; simpl.
  - split; [done|]. intros (pre & d & post & Heq & _).
    by destruct pre.
  - unfold chunk_body. destruct (TextChunk_init d) as [e'|c] eqn:Hd.
    + split.
      * intros [= ->]. exists [], d, chunks. by repeat split.
      * intros (pre & d' & post & Heq & Hpre & Hd').
        destruct pre as [|d0 pre]; simpl in Heq; injection Heq as <- ->;
          [congruence|].
        apply Forall_cons in Hpre as [[c Hc]%TextChunk_init_well_formed _].
        congruence.
    + rewrite IH. split.
      * intros (pre & d' & post & -> & Hpre & Hd').
        exists (d :: pre), d', post. split_and!; [done| |done].
        constructor; [|done]. by apply TextChunk_init_inr in Hd as [? _].
      * intros (pre & d' & post & Heq & Hpre & Hd').
        destruct pre as [|d0 pre]; simpl in Heq; injection Heq as <- ->;
          [congruence|].
        apply Forall_cons in Hpre as [_ Hpre]. by exists pre, d', post.
Qed.

Lemma ingested_well_formed chunks :
  Forall well_formed chunks ↔ ∃ cs, ingested chunks cs.
Proof.
  unfold ingested. induction chunks as [|d chunks IH].
  - split; [|constructor]. exists []. constructor.
  - rewrite Forall_cons, IH. split.
    + intros [[c Hc]%TextChunk_init_well_formed [cs Hcs]].
      exists (c :: cs). by constructor.
    + intros (cs & (c & cs' & Hc & Hcs & _)%Forall2_cons_inv_l).
      split; [|by exists cs']. by apply TextChunk_init_inr in Hc as [? _].
Qed.

(** The whole function, when it returns. *)
Lemma decompose_corpus_inr chunks r :
  decompose_corpus chunks = inr r ↔
  ∃ cs, ingested chunks cs ∧
    let us := cs ≫= extract_semantic_units in
    r = {| units := us;
           entities := dict_values (store_entities [] (us ≫= extract_entities));
           relationships := us ≫= extract_relationships |}.
Proof.
  unfold decompose_corpus.
  destruct (for_chunks chunks _) as [e|st] eqn:Hrun.
  - split; [done|]. intros (cs & Hcs & _).
    assert (for_chunks chunks (Locals [] [] []) = inr
              (foldl unit_body (Locals [] [] []) (cs ≫= extract_semantic_units)))
      by (apply for_chunks_inr; eauto). congruence.
  - apply for_chunks_inr in Hrun as (cs & Hcs & ->). rewrite unit_loop. simpl.
    split.
    + intros [= <-]. by exists cs.
    + intros (cs' & Hcs' & ->).
      assert (cs' = cs) as ->; [|done].
      clear -Hcs Hcs'. unfold ingested in *.
      revert cs' Hcs'. induction Hcs as [|d c ds cs Hc _ IH]; intros cs' Hcs'.
      * by apply Forall2_nil_inv_l in Hcs'.
      * apply Forall2_cons_inv_l in Hcs' as (c' & cs'' & Hc' & Hcs'' & ->).
        f_equal; [congruence | by apply IH].
Qed.

(** The whole function, when it raises: the exception is that of the
    first record that is not well formed. *)
Lemma decompose_corpus_inl chunks e :
  decompose_corpus chunks = inl e ↔
  ∃ pre d post, chunks = pre ++ d :: post ∧ Forall well_formed pre ∧
                TextChunk_init d = inl e.
Proof.
  rewrite <- (for_chunks_inl chunks (Locals [] [] [])).
  unfold decompose_corpus. destruct (for_chunks chunks _); naive_solver.
Qed.

Lemma decompose_corpus_raises chunks :
  ¬ Forall well_formed chunks →
  ∃ why, decompose_corpus chunks = inl (TypeError why).
Proof.
  intros Hn. destruct (decompose_corpus chunks) as [e|r] eqn:Hrun.
  - apply decompose_corpus_inl in Hrun as (pre & d & post & _ & _ & Hd).
    apply TextChunk_init_inl in Hd as [_ [why ->]]; eauto.
  - apply decompose_corpus_inr in Hrun as (cs & Hcs & _).
    destruct Hn. apply ingested_well_formed. eauto.
Qed.

Lemma baseline_units cs :
  cs ≫= extract_semantic_units =
  (λ c, SemanticUnit.new (TextChunk.content c) "Mock summary" (TextChunk.source c))
    <$> cs.
Proof. induction cs as [|c cs IH]; [done|]. by rewrite bind_cons, fmap_cons, IH. Qed.

Lemma baseline_relationships us :
  us ≫= extract_relationships = (λ _, MockRel) <$> us.
Proof. induction us as [|u us IH]; [done|]. by rewrite bind_cons, fmap_cons, IH. Qed.
End Loops.

(** ** Properties of the object-level embedding *)

(** *** Running the primitives *)
Section HeapSteps.
Implicit Types (h : Heap.heap) (a : Heap.addr) (o : Heap.obj) (v x : Heap.value).

Lemma bind_ret_eq {A B} (m : Heap.M A) (k : A → Heap.M B) h h' r :
  m h = Some (h', inr r) → Heap.bind m k h = k r h'.
Proof. unfold Heap.bind. by intros ->. Qed.

Lemma bind_raise_eq {A B} (m : Heap.M A) (k : A → Heap.M B) h h' e :
  m h = Some (h', inl e) → Heap.bind m k h = Some (h', inl e).
Proof. unfold Heap.bind. by intros ->. Qed.

Lemma lookup_last h o : (h ++ [o]) !! length h = Some o.
Proof. by rewrite lookup_app_r, Nat.sub_diag by lia. Qed.

Lemma insert_last h o o' : <[length h := o']> (h ++ [o]) = h ++ [o'].
Proof. by rewrite insert_app_r_alt, Nat.sub_diag by lia. Qed.

Lemma load_eq h a o : h !! a = Some o → Heap.load a h = Some (h, inr o).
Proof. unfold Heap.load. by intros ->. Qed.

Lemma store_eq h a o o' :
  h !! a = Some o → Heap.store a o' h = Some (<[a := o']> h, inr tt).
Proof. unfold Heap.store. by intros ->. Qed.

Lemma getattr_eq h a c attrs n x :
  h !! a = Some (Heap.OInstance c attrs) → attrs !! n = Some x →
  Heap.getattr (Heap.VRef a) n h = Some (h, inr x).
Proof.
  intros Ha Hn. unfold Heap.getattr.
  rewrite (bind_ret_eq _ _ _ _ _ (load_eq _ _ _ Ha)). by rewrite Hn.
Qed.

Lemma setattr_last h c attrs n x :
  Heap.setattr (length h) n x (h ++ [Heap.OInstance c attrs]) =
  Some (h ++ [Heap.OInstance c (<[n := x]> attrs)], inr tt).
Proof.
  unfold Heap.setattr.
  rewrite (bind_ret_eq _ _ _ _ _ (load_eq _ _ _ (lookup_last _ _))).
  rewrite (store_eq _ _ _ _ (lookup_last _ _)). by rewrite insert_last.
Qed.

Lemma list_items_eq h a items :
  h !! a = Some (Heap.OList items) →
  Heap.list_items (Heap.VRef a) h = Some (h, inr items).
Proof.
  intros Ha. unfold Heap.list_items.
  by rewrite (bind_ret_eq _ _ _ _ _ (load_eq _ _ _ Ha)).
Qed.

Lemma list_append_eq h a items x :
  h !! a = Some (Heap.OList items) →
  Heap.list_append (Heap.VRef a) x h =
  Some (<[a := Heap.OList (items ++ [x])]> h, inr tt).
Proof.
  intros Ha. unfold Heap.list_append.
  rewrite (bind_ret_eq _ _ _ _ _ (load_eq _ _ _ Ha)). by apply store_eq with (o := Heap.OList items).
Qed.

Lemma dict_store_eq h a entries (k : string) x :
  h !! a = Some (Heap.ODict entries) →
  Heap.dict_store a (Heap.VStr k) x h =
  Some (<[a := Heap.ODict (dict_setitem entries (Heap.VStr k) x)]> h, inr tt).
Proof.
  intros Ha. unfold Heap.dict_store.
  rewrite (bind_ret_eq _ _ _ _ _ (load_eq _ _ _ Ha)).
  unfold Heap.hashable. rewrite (bind_ret_eq _ _ h h tt) by done.
  by apply store_eq with (o := Heap.ODict entries).
Qed.

(** The constructors: one new object, with the attributes assigned. *)
Lemma SemanticUnit_new_eq h text summary source :
  Heap.SemanticUnit_new text summary source h =
  Some (h ++ [Heap.OInstance Heap.CSemanticUnit
                (<["source" := source]> (<["summary" := summary]> (<["text" := text]> ∅)))],
        inr (Heap.VRef (length h))).
Proof.
  unfold Heap.SemanticUnit_new.
  rewrite (bind_ret_eq _ _ h (h ++ [_]) (length h)) by done.
  do 3 rewrite (bind_ret_eq _ _ _ _ _ (setattr_last _ _ _ _ _)). done.
Qed.

Lemma Entity_new_eq h name is_entry_point :
  Heap.Entity_new name is_entry_point h =
  Some (h ++ [Heap.OInstance Heap.CEntity
                (<["is_entry_point" := is_entry_point]> (<["name" := name]> ∅))],
        inr (Heap.VRef (length h))).
Proof.
  unfold Heap.Entity_new.
  rewrite (bind_ret_eq _ _ h (h ++ [_]) (length h)) by done.
  do 2 rewrite (bind_ret_eq _ _ _ _ _ (setattr_last _ _ _ _ _)). done.
Qed.

Lemma Relationship_new_eq h description source target :
  Heap.Relationship_new description source target h =
  Some (h ++ [Heap.OInstance Heap.CRelationship
                (<["target" := target]> (<["source" := source]>
                   (<["description" := description]> ∅)))],
        inr (Heap.VRef (length h))).
Proof.
  unfold Heap.Relationship_new.
  rewrite (bind_ret_eq _ _ h (h ++ [_]) (length h)) by done.
  do 3 rewrite (bind_ret_eq _ _ _ _ _ (setattr_last _ _ _ _ _)). done.
Qed.

Lemma TextChunk_new_eq h (d : gmap string string) :
  Heap.TextChunk_new d h =
  match TextChunk_init d with
  | inr c =>
      Some (h ++ [Heap.OInstance Heap.CTextChunk
                    (<["source" := Heap.VStr (TextChunk.source c)]>
                       (<["content" := Heap.VStr (TextChunk.content c)]> ∅))],
            inr (Heap.VRef (length h)))
  | inl e => Some (h ++ [Heap.OInstance Heap.CTextChunk ∅], inl e)
  end.
Proof.
  unfold Heap.TextChunk_new, TextChunk_init.
  rewrite (bind_ret_eq _ _ h (h ++ [_]) (length h)) by done.
  destruct (bind_keywords d) as [why|]; [done|].
  destruct (d !! "content") as [c|]; [|done].
  destruct (d !! "source") as [s|]; [|done].
  do 2 rewrite (bind_ret_eq _ _ _ _ _ (setattr_last _ _ _ _ _)). done.
Qed.
End HeapSteps.

(** *** The extractors on the store *)
Section HeapExtractors.
Implicit Types (h : Heap.heap) (a : Heap.addr) (o : Heap.obj) (v x : Heap.value).

Lemma lookup_last2_fst h o1 o2 : (h ++ [o1; o2]) !! length h = Some o1.
Proof. by rewrite lookup_app_r, Nat.sub_diag by lia. Qed.

Lemma lookup_last2_snd h o1 o2 : (h ++ [o1; o2]) !! S (length h) = Some o2.
Proof.
  rewrite lookup_app_r by lia. by replace (S (length h) - length h) with 1 by lia.
Qed.

Lemma alloc_second h o1 o2 :
  Heap.alloc o2 (h ++ [o1]) = Some (h ++ [o1; o2], inr (S (length h))).
Proof.
  unfold Heap.alloc. rewrite <- app_assoc, length_app. simpl.
  by rewrite Nat.add_1_r.
Qed.

Lemma extract_semantic_units_eq h a c attrs cv sv :
  h !! a = Some (Heap.OInstance c attrs) →
  attrs !! "content" = Some cv → attrs !! "source" = Some sv →
  Heap.extract_semantic_units (Heap.VRef a) h =
  Some (h ++ [Heap.OInstance Heap.CSemanticUnit
                (<["source" := sv]> (<["summary" := Heap.VStr "Mock summary"]>
                   (<["text" := cv]> ∅)));
              Heap.OList [Heap.VRef (length h)]],
        inr (Heap.VRef (S (length h)))).
Proof.
  intros Ha Hc Hs. unfold Heap.extract_semantic_units.
  rewrite (bind_ret_eq _ _ _ _ _ (getattr_eq _ _ _ _ _ _ Ha Hc)).
  rewrite (bind_ret_eq _ _ _ _ _ (getattr_eq _ _ _ _ _ _ Ha Hs)).
  rewrite (bind_ret_eq _ _ _ _ _ (SemanticUnit_new_eq _ _ _ _)).
  by rewrite (bind_ret_eq _ _ _ _ _ (alloc_second _ _ _)).
Qed.

Lemma extract_entities_eq h unit :
  Heap.extract_entities unit h =
  Some (h ++ [Heap.OInstance Heap.CEntity
                (<["is_entry_point" := Heap.VBool true]>
                   (<["name" := Heap.VStr "MockEntity"]> ∅));
              Heap.OList [Heap.VRef (length h)]],
        inr (Heap.VRef (S (length h)))).
Proof.
  unfold Heap.extract_entities.
  rewrite (bind_ret_eq _ _ _ _ _ (Entity_new_eq _ _ _)).
  by rewrite (bind_ret_eq _ _ _ _ _ (alloc_second _ _ _)).
Qed.

Lemma extract_relationships_eq h unit :
  Heap.extract_relationships unit h =
  Some (h ++ [Heap.OInstance Heap.CRelationship
                (<["target" := Heap.VStr "MockEntityB"]>
                   (<["source" := Heap.VStr "MockEntityA"]>
                      (<["description" := Heap.VStr "MockRel"]> ∅)));
              Heap.OList [Heap.VRef (length h)]],
        inr (Heap.VRef (S (length h)))).
Proof.
  unfold Heap.extract_relationships.
  rewrite (bind_ret_eq _ _ _ _ _ (Relationship_new_eq _ _ _ _)).
  by rewrite (bind_ret_eq _ _ _ _ _ (alloc_second _ _ _)).
Qed.

(** The unit extractor only allocates: whatever its argument is, the
    store it leaves is the store it found, followed by new objects. *)
Lemma extract_semantic_units_extends h a o :
  h !! a = Some o →
  ∃ new out, Heap.extract_semantic_units (Heap.VRef a) h = Some (h ++ new, out).
Proof.
  intros Ha. destruct o as [c attrs|items|entries].
  - destruct (attrs !! "content") as [cv|] eqn:Hc.
    + destruct (attrs !! "source") as [sv|] eqn:Hs.
      * eexists _, _. by eapply extract_semantic_units_eq.
      * exists [], (inl (AttributeError "source")). rewrite app_nil_r.
        unfold Heap.extract_semantic_units.
        rewrite (bind_ret_eq _ _ _ _ _ (getattr_eq _ _ _ _ _ _ Ha Hc)).
        apply bind_raise_eq. unfold Heap.getattr.
        rewrite (bind_ret_eq _ _ _ _ _ (load_eq _ _ _ Ha)). by rewrite Hs.
    + exists [], (inl (AttributeError "content")). rewrite app_nil_r.
      apply bind_raise_eq. unfold Heap.getattr.
      rewrite (bind_ret_eq _ _ _ _ _ (load_eq _ _ _ Ha)). by rewrite Hc.
  - exists [], (inl (AttributeError "content")). rewrite app_nil_r.
    apply bind_raise_eq. unfold Heap.getattr.
    by rewrite (bind_ret_eq _ _ _ _ _ (load_eq _ _ _ Ha)).
  - exists [], (inl (AttributeError "content")). rewrite app_nil_r.
    apply bind_raise_eq. unfold Heap.getattr.
    by rewrite (bind_ret_eq _ _ _ _ _ (load_eq _ _ _ Ha)).
Qed.

Lemma getattr_result_extends h new a o n :
  h !! a = Some o →
  snd <$> Heap.getattr (Heap.VRef a) n (h ++ new) =
  snd <$> Heap.getattr (Heap.VRef a) n h.
Proof.
  intros Ha. assert (Ha' : (h ++ new) !! a = Some o) by by apply lookup_app_l_Some.
  unfold Heap.getattr.
  rewrite (bind_ret_eq _ _ _ _ _ (load_eq _ _ _ Ha)).
  rewrite (bind_ret_eq _ _ _ _ _ (load_eq _ _ _ Ha')).
  destruct o as [c attrs| |]; [|done..]. by destruct (attrs !! n).
Qed.
End HeapExtractors.

(** *** Reading instances back *)
Section HeapReads.
Implicit Types (h : Heap.heap) (a : Heap.addr) (o : Heap.obj) (v x : Heap.value).

Lemma read_str_Some v s : Heap.read_str v = Some s ↔ v = Heap.VStr s.
Proof. destruct v; naive_solver. Qed.

Lemma read_bool_Some v b : Heap.read_bool v = Some b ↔ v = Heap.VBool b.
Proof. destruct v; naive_solver. Qed.

Lemma read_attrs_Some h c v attrs :
  Heap.read_attrs h c v = Some attrs ↔
  ∃ a, v = Heap.VRef a ∧ h !! a = Some (Heap.OInstance c attrs).
Proof.
  unfold Heap.read_attrs. split.
  - destruct v as [| |a]; [done..|].
    destruct (h !! a) as [[c' attrs'| |]|] eqn:Ha; [|done..].
    case_decide; [|done]. intros [= ->]. subst. eauto.
  - intros (a & -> & ->). by rewrite decide_True.
Qed.

Lemma read_chunk_Some h v c :
  Heap.read_chunk h v = Some c ↔
  ∃ a attrs, v = Heap.VRef a ∧ h !! a = Some (Heap.OInstance Heap.CTextChunk attrs) ∧
    attrs !! "content" = Some (Heap.VStr (TextChunk.content c)) ∧
    attrs !! "source" = Some (Heap.VStr (TextChunk.source c)).
Proof.
  unfold Heap.read_chunk. split.
  - intros Hr. apply bind_Some in Hr as (attrs & (a & -> & Ha)%read_attrs_Some & Hr).
    apply bind_Some in Hr as (x & (vx & Hvx & ->%read_str_Some)%bind_Some & Hr).
    apply bind_Some in Hr as (y & (vy & Hvy & ->%read_str_Some)%bind_Some & Hr).
    injection Hr as <-. by exists a, attrs.
  - intros (a & attrs & -> & Ha & Hc & Hs).
    rewrite (proj2 (read_attrs_Some _ _ _ _)) by eauto. simpl.
    rewrite Hc, Hs. simpl. by destruct c.
Qed.

(** A read of an instance depends on that instance alone. *)
Lemma read_attrs_kept h h' c v attrs :
  Heap.instances_kept h h' →
  Heap.read_attrs h c v = Some attrs → Heap.read_attrs h' c v = Some attrs.
Proof.
  intros Hk (a & -> & Ha)%read_attrs_Some. apply read_attrs_Some. eauto.
Qed.

Lemma read_chunk_kept h h' v c :
  Heap.instances_kept h h' →
  Heap.read_chunk h v = Some c → Heap.read_chunk h' v = Some c.
Proof.
  unfold Heap.read_chunk. intros Hk (attrs & Ha & Hr)%bind_Some.
  by rewrite (read_attrs_kept _ _ _ _ _ Hk Ha).
Qed.

Lemma read_unit_kept h h' v u :
  Heap.instances_kept h h' →
  Heap.read_unit h v = Some u → Heap.read_unit h' v = Some u.
Proof.
  unfold Heap.read_unit. intros Hk (attrs & Ha & Hr)%bind_Some.
  by rewrite (read_attrs_kept _ _ _ _ _ Hk Ha).
Qed.

Lemma read_entity_kept h h' v e :
  Heap.instances_kept h h' →
  Heap.read_entity h v = Some e → Heap.read_entity h' v = Some e.
Proof.
  unfold Heap.read_entity. intros Hk (attrs & Ha & Hr)%bind_Some.
  by rewrite (read_attrs_kept _ _ _ _ _ Hk Ha).
Qed.

Lemma read_relationship_kept h h' v r :
  Heap.instances_kept h h' →
  Heap.read_relationship h v = Some r → Heap.read_relationship h' v = Some r.
Proof.
  unfold Heap.read_relationship. intros Hk (attrs & Ha & Hr)%bind_Some.
  by rewrite (read_attrs_kept _ _ _ _ _ Hk Ha).
Qed.

Lemma mapM_kept {A} (rd rd' : Heap.value → option A) (vs : list Heap.value) (xs : list A) :
  (∀ v (y : A), rd v = Some y → rd' v = Some y) →
  mapM rd vs = Some xs → mapM rd' vs = Some xs.
Proof.
  intros Hrd Hvs. apply mapM_Some. apply mapM_Some in Hvs.
  eapply Forall2_impl; [done|]. apply Hrd.
Qed.

Lemma mapM_snoc {A} (rd : Heap.value → option A) vs xs v (y : A) :
  mapM rd vs = Some xs → rd v = Some y → mapM rd (vs ++ [v]) = Some (xs ++ [y]).
Proof.
  intros Hvs Hv. apply mapM_Some. apply mapM_Some in Hvs.
  apply Forall2_app; [done|]. by repeat constructor.
Qed.

Lemma instances_kept_app h new : Heap.instances_kept h (h ++ new).
Proof. intros a c attrs Ha. by apply lookup_app_l_Some. Qed.

(** What the constructors build reads back as the record. *)
Lemma read_unit_new h a (t s : string) :
  h !! a = Some (Heap.OInstance Heap.CSemanticUnit
                   (<["source" := Heap.VStr s]> (<["summary" := Heap.VStr "Mock summary"]>
                      (<["text" := Heap.VStr t]> ∅)))) →
  Heap.read_unit h (Heap.VRef a) = Some (SemanticUnit.new t "Mock summary" s).
Proof.
  intros Ha. unfold Heap.read_unit.
  rewrite (proj2 (read_attrs_Some _ _ _ _)) by eauto. by simplify_map_eq.
Qed.

Lemma read_entity_new h a :
  h !! a = Some (Heap.OInstance Heap.CEntity
                   (<["is_entry_point" := Heap.VBool true]>
                      (<["name" := Heap.VStr "MockEntity"]> ∅))) →
  Heap.read_entity h (Heap.VRef a) = Some (Entity.new1 "MockEntity").
Proof.
  intros Ha. unfold Heap.read_entity.
  rewrite (proj2 (read_attrs_Some _ _ _ _)) by eauto. by simplify_map_eq.
Qed.

Lemma read_relationship_new h a :
  h !! a = Some (Heap.OInstance Heap.CRelationship
                   (<["target" := Heap.VStr "MockEntityB"]>
                      (<["source" := Heap.VStr "MockEntityA"]>
                         (<["description" := Heap.VStr "MockRel"]> ∅)))) →
  Heap.read_relationship h (Heap.VRef a) = Some MockRel.
Proof.
  intros Ha. unfold Heap.read_relationship.
  rewrite (proj2 (read_attrs_Some _ _ _ _)) by eauto. by simplify_map_eq.
Qed.
End HeapReads.

(** *** The store during a run *)
Section HeapLayout.
Implicit Types (h tail new : Heap.heap) (us rs : list Heap.value).
Implicit Types (es : list (Heap.value * Heap.value)).

Lemma layout_app (h0 : Heap.heap) us es rs tail new :
  Heap.layout h0 us es rs tail ++ new = Heap.layout h0 us es rs (tail ++ new).
Proof. unfold Heap.layout. by rewrite <- app_assoc. Qed.

Lemma layout_units (h0 : Heap.heap) us es rs tail :
  Heap.layout h0 us es rs tail !! length h0 = Some (Heap.OList us).
Proof. unfold Heap.layout. by rewrite lookup_app_r, Nat.sub_diag by lia. Qed.

Lemma layout_entities (h0 : Heap.heap) us es rs tail :
  Heap.layout h0 us es rs tail !! S (length h0) = Some (Heap.ODict es).
Proof.
  unfold Heap.layout. rewrite lookup_app_r by lia.
  by replace (S (length h0) - length h0) with 1 by lia.
Qed.

Lemma layout_relationships (h0 : Heap.heap) us es rs tail :
  Heap.layout h0 us es rs tail !! S (S (length h0)) = Some (Heap.OList rs).
Proof.
  unfold Heap.layout. rewrite lookup_app_r by lia.
  by replace (S (S (length h0)) - length h0) with 2 by lia.
Qed.

Lemma layout_set_units (h0 : Heap.heap) us es rs tail us' :
  <[length h0 := Heap.OList us']> (Heap.layout h0 us es rs tail) =
  Heap.layout h0 us' es rs tail.
Proof. unfold Heap.layout. by rewrite insert_app_r_alt, Nat.sub_diag by lia. Qed.

Lemma layout_set_entities (h0 : Heap.heap) us es rs tail es' :
  <[S (length h0) := Heap.ODict es']> (Heap.layout h0 us es rs tail) =
  Heap.layout h0 us es' rs tail.
Proof.
  unfold Heap.layout. rewrite insert_app_r_alt by lia.
  by replace (S (length h0) - length h0) with 1 by lia.
Qed.

Lemma layout_set_relationships (h0 : Heap.heap) us es rs tail rs' :
  <[S (S (length h0)) := Heap.OList rs']> (Heap.layout h0 us es rs tail) =
  Heap.layout h0 us es rs' tail.
Proof.
  unfold Heap.layout. rewrite insert_app_r_alt by lia.
  by replace (S (S (length h0)) - length h0) with 2 by lia.
Qed.

(** Appending to an accumulator, storing into the dict and allocating all
    keep the instances of the store. *)
Lemma layout_kept (h0 : Heap.heap) us es rs tail us' es' rs' new :
  Heap.instances_kept (Heap.layout h0 us es rs tail)
                      (Heap.layout h0 us' es' rs' (tail ++ new)).
Proof.
  intros a c attrs. unfold Heap.layout.
  destruct (decide (a < length h0)) as [Hlt|Hge].
  - by rewrite !lookup_app_l by done.
  - rewrite !lookup_app_r by lia.
    destruct (a - length h0) as [|[|[|i]]]; simpl; [done..|].
    apply lookup_app_l_Some.
Qed.

Lemma layout_extends (h0 : Heap.heap) us es rs tail b o :
  h0 !! b = Some o → Heap.layout h0 us es rs tail !! b = Some o.
Proof. unfold Heap.layout. apply lookup_app_l_Some. Qed.

Lemma reads_entries_kept h h' es d :
  Heap.instances_kept h h' →
  Heap.reads_entries h es d → Heap.reads_entries h' es d.
Proof.
  intros Hk. unfold Heap.reads_entries. intros Hes.
  eapply Forall2_impl; [done|].
  intros kv ke [? ?]. split; [done|]. by eapply read_entity_kept.
Qed.

Lemma represents_kept h h' us es rs st :
  Heap.instances_kept h h' →
  Heap.represents h us es rs st → Heap.represents h' us es rs st.
Proof.
  intros Hk (Hus & Hes & Hrs). split_and!.
  - eapply mapM_kept; [|done]. intros. by eapply read_unit_kept.
  - by eapply reads_entries_kept.
  - eapply mapM_kept; [|done]. intros. by eapply read_relationship_kept.
Qed.

(** Item assignment on the two dicts in step. *)
Lemma reads_entries_setitem h es d (k : string) v e :
  Heap.reads_entries h es d →
  Heap.read_entity h v = Some e →
  Heap.reads_entries h (dict_setitem es (Heap.VStr k) v) (dict_setitem d k e).
Proof.
  unfold Heap.reads_entries. intros Hes Hv.
  induction Hes as [|[kv vv] [ke ve] es d [Hk Hr] Hes IH]; simpl in *.
  - by repeat constructor.
  - subst kv. destruct (decide (ke = k)) as [->|Hne].
    + rewrite decide_True by done. by constructor.
    + rewrite decide_False by congruence. by constructor.
Qed.

Lemma reads_entries_values h es d :
  Heap.reads_entries h es d →
  mapM (Heap.read_entity h) (dict_values es) = Some (dict_values d).
Proof.
  unfold Heap.reads_entries, dict_values. intros Hes. apply mapM_Some.
  induction Hes as [|[kv vv] [ke ve] es d [Hk Hr] _ IH]; [constructor|].
  rewrite !fmap_cons. by constructor.
Qed.
End HeapLayout.

(** *** One unit, one chunk, all chunks *)
Section HeapRun.
Variable h0 : Heap.heap.
Implicit Types (tail new : Heap.heap) (us rs : list Heap.value).
Implicit Types (es : list (Heap.value * Heap.value)) (st : locals).

Lemma bind_assoc {A B C} (m : Heap.M A) (k : A → Heap.M B) (k' : B → Heap.M C) h :
  Heap.bind (Heap.bind m k) k' h = Heap.bind m (λ x, Heap.bind (k x) k') h.
Proof. unfold Heap.bind. by destruct (m h) as [[h' [e|x]]|]. Qed.

Lemma layout_kept_same us es rs tail us' es' rs' :
  Heap.instances_kept (Heap.layout h0 us es rs tail)
                      (Heap.layout h0 us' es' rs' tail).
Proof.
  rewrite <- (app_nil_r tail) at 2. apply layout_kept.
Qed.

Lemma MockEntity_name :
  (<["is_entry_point" := Heap.VBool true]>
     (<["name" := Heap.VStr "MockEntity"]> (∅ : gmap string Heap.value)))
    !! "name" = Some (Heap.VStr "MockEntity").
Proof. by simplify_map_eq. Qed.

Lemma unit_body_run us es rs tail st unit u_rec :
  Heap.represents (Heap.layout h0 us es rs tail) us es rs st →
  Heap.read_unit (Heap.layout h0 us es rs tail) unit = Some u_rec →
  ∃ us' es' rs' new,
    Heap.unit_body (length h0) (S (length h0)) (S (S (length h0))) unit
                   (Heap.layout h0 us es rs tail)
      = Some (Heap.layout h0 us' es' rs' (tail ++ new), inr tt) ∧
    Heap.represents (Heap.layout h0 us' es' rs' (tail ++ new)) us' es' rs'
                    (unit_body st u_rec).
Proof.
  intros Hrep Hunit. unfold Heap.unit_body.
  rewrite (bind_ret_eq _ _ _ _ _ (list_append_eq _ _ _ _ (layout_units _ _ _ _ _))).
  rewrite layout_set_units.
  rewrite (bind_ret_eq _ _ _ _ _ (extract_entities_eq _ _)).
  rewrite (bind_ret_eq _ _ _ _ _ (list_items_eq _ _ _ (lookup_last2_snd _ _ _))).
  cbn [Heap.for_each]. rewrite !bind_assoc.
  rewrite (bind_ret_eq _ _ _ _ _
             (getattr_eq _ _ _ _ _ _ (lookup_last2_fst _ _ _) MockEntity_name)).
  set (H1 := Heap.layout h0 (us ++ [unit]) es rs tail).
  assert (Hent : Heap.read_entity
                   (H1 ++ [Heap.OInstance Heap.CEntity
                             (<["is_entry_point" := Heap.VBool true]>
                                (<["name" := Heap.VStr "MockEntity"]> ∅));
                           Heap.OList [Heap.VRef (length H1)]])
                   (Heap.VRef (length H1)) = Some (Entity.new1 "MockEntity"))
    by apply read_entity_new, lookup_last2_fst.
  unfold H1 in Hent |- *. clear H1. rewrite layout_app in Hent |- *.
  rewrite (bind_ret_eq _ _ _ _ _ (dict_store_eq _ _ _ _ _ (layout_entities _ _ _ _ _))).
  rewrite layout_set_entities.
  rewrite (bind_ret_eq _ _ _ _ tt) by done.
  rewrite (bind_ret_eq _ _ _ _ _ (extract_relationships_eq _ _)).
  rewrite (bind_ret_eq _ _ _ _ _ (list_items_eq _ _ _ (lookup_last2_snd _ _ _))).
  cbn [Heap.for_each].
  set (us1 := us ++ [unit]) in *.
  set (es1 := dict_setitem es _ _).
  set (tail1 := tail ++ _) in *.
  set (H2 := Heap.layout h0 us1 es1 rs tail1).
  assert (Hrel : Heap.read_relationship
                   (H2 ++ [Heap.OInstance Heap.CRelationship
                             (<["target" := Heap.VStr "MockEntityB"]>
                                (<["source" := Heap.VStr "MockEntityA"]>
                                   (<["description" := Heap.VStr "MockRel"]> ∅)));
                           Heap.OList [Heap.VRef (length H2)]])
                   (Heap.VRef (length H2)) = Some MockRel)
    by apply read_relationship_new, lookup_last2_fst.
  unfold H2 in Hrel |- *. clear H2. rewrite layout_app in Hrel |- *.
  rewrite (bind_ret_eq _ _ _ _ _
             (list_append_eq _ _ _ _ (layout_relationships _ _ _ _ _))).
  rewrite layout_set_relationships.
  set (rs1 := rs ++ _). set (tail2 := tail1 ++ _) in *.
  exists us1, es1, rs1.
  assert (∃ new, tail2 = tail ++ new) as [new Htail].
  { eexists. unfold tail2, tail1. by rewrite <- app_assoc. }
  exists new. rewrite <- Htail. split; [done|].
  assert (Hk0 : Heap.instances_kept (Heap.layout h0 us es rs tail)
                                    (Heap.layout h0 us1 es1 rs1 tail2)).
  { rewrite Htail. apply layout_kept. }
  destruct Hrep as (Hus & Hes & Hrs). split_and!.
  - cbn [unit_body l_units]. apply mapM_snoc.
    + eapply mapM_kept; [|exact Hus]. intros. by eapply read_unit_kept.
    + by eapply read_unit_kept.
  - cbn [unit_body l_entities]. apply reads_entries_setitem.
    + by eapply reads_entries_kept.
    + eapply read_entity_kept; [|exact Hent]. apply layout_kept.
  - cbn [unit_body l_relationships]. apply mapM_snoc.
    + eapply mapM_kept; [|exact Hrs]. intros. by eapply read_relationship_kept.
    + eapply read_relationship_kept; [|exact Hrel]. apply layout_kept_same.
Qed.

Lemma chunk_attrs (c s : Heap.value) :
  let attrs : gmap string Heap.value := <["source" := s]> (<["content" := c]> ∅) in
  attrs !! "content" = Some c ∧ attrs !! "source" = Some s.
Proof. by simplify_map_eq. Qed.

Lemma chunk_body_run us es rs tail st (d : gmap string string) :
  Heap.represents (Heap.layout h0 us es rs tail) us es rs st →
  match chunk_body st d with
  | inl e =>
      ∃ new,
        Heap.chunk_body (length h0) (S (length h0)) (S (S (length h0))) d
                        (Heap.layout h0 us es rs tail)
          = Some (Heap.layout h0 us es rs (tail ++ new), inl e)
  | inr st' =>
      ∃ us' es' rs' new,
        Heap.chunk_body (length h0) (S (length h0)) (S (S (length h0))) d
                        (Heap.layout h0 us es rs tail)
          = Some (Heap.layout h0 us' es' rs' (tail ++ new), inr tt) ∧
        Heap.represents (Heap.layout h0 us' es' rs' (tail ++ new)) us' es' rs' st'
  end.
Proof.
  intros Hrep. unfold chunk_body, Heap.chunk_body.
  pose proof (TextChunk_new_eq (Heap.layout h0 us es rs tail) d) as Hnew.
  destruct (TextChunk_init d) as [e|c] eqn:Hd.
  - rewrite (bind_raise_eq _ _ _ _ _ Hnew), layout_app. eauto.
  - rewrite (bind_ret_eq _ _ _ _ _ Hnew). clear Hnew.
    destruct (chunk_attrs (Heap.VStr (TextChunk.content c))
                          (Heap.VStr (TextChunk.source c))) as [Hc Hs].
    rewrite (bind_ret_eq _ _ _ _ _
               (extract_semantic_units_eq _ _ _ _ _ _ (lookup_last _ _) Hc Hs)).
    rewrite (bind_ret_eq _ _ _ _ _ (list_items_eq _ _ _ (lookup_last2_snd _ _ _))).
    cbn [Heap.for_each foldl extract_semantic_units].
    set (H1 := Heap.layout h0 us es rs tail ++ _).
    assert (Hunit : Heap.read_unit
                      (H1 ++ [Heap.OInstance Heap.CSemanticUnit
                                (<["source" := Heap.VStr (TextChunk.source c)]>
                                   (<["summary" := Heap.VStr "Mock summary"]>
                                      (<["text" := Heap.VStr (TextChunk.content c)]> ∅)));
                              Heap.OList [Heap.VRef (length H1)]])
                      (Heap.VRef (length H1))
                    = Some (SemanticUnit.new (TextChunk.content c) "Mock summary"
                                             (TextChunk.source c)))
      by apply read_unit_new, lookup_last2_fst.
    unfold H1 in Hunit |- *. clear H1. rewrite !layout_app in Hunit |- *.
    set (tail1 := (tail ++ _) ++ _) in *.
    assert (Hrep1 : Heap.represents (Heap.layout h0 us es rs tail1) us es rs st).
    { eapply represents_kept; [|exact Hrep]. unfold tail1.
      rewrite <- app_assoc. apply layout_kept. }
    destruct (unit_body_run us es rs tail1 st _ _ Hrep1 Hunit)
      as (us' & es' & rs' & new & Hrun & Hrep').
    rewrite (bind_ret_eq _ _ _ _ _ Hrun).
    exists us', es', rs'.
    assert (∃ new', tail1 ++ new = tail ++ new') as [new' Htail].
    { eexists. unfold tail1. by rewrite <- !app_assoc. }
    exists new'. rewrite <- Htail. done.
Qed.

Lemma for_chunks_run (chunks : list (gmap string string)) us es rs tail st :
  Heap.represents (Heap.layout h0 us es rs tail) us es rs st →
  match for_chunks chunks st with
  | inl e =>
      ∃ us' es' rs' new,
        Heap.for_each chunks
          (Heap.chunk_body (length h0) (S (length h0)) (S (S (length h0))))
          (Heap.layout h0 us es rs tail)
          = Some (Heap.layout h0 us' es' rs' (tail ++ new), inl e)
  | inr st' =>
      ∃ us' es' rs' new,
        Heap.for_each chunks
          (Heap.chunk_body (length h0) (S (length h0)) (S (S (length h0))))
          (Heap.layout h0 us es rs tail)
          = Some (Heap.layout h0 us' es' rs' (tail ++ new), inr tt) ∧
        Heap.represents (Heap.layout h0 us' es' rs' (tail ++ new)) us' es' rs' st'
  end.
Proof.
  revert us es rs tail st.
  induction chunks as [|d chunks IH]; intros us es rs tail st Hrep.
  - simpl. exists us, es, rs, []. by rewrite app_nil_r.
  - cbn [for_chunks Heap.for_each].
    pose proof (chunk_body_run us es rs tail st d Hrep) as Hstep.
    destruct (chunk_body st d) as [e|st1].
    + destruct Hstep as (new & Hstep).
      rewrite (bind_raise_eq _ _ _ _ _ Hstep). by exists us, es, rs, new.
    + destruct Hstep as (us1 & es1 & rs1 & new1 & Hstep & Hrep1).
      rewrite (bind_ret_eq _ _ _ _ _ Hstep).
      specialize (IH us1 es1 rs1 (tail ++ new1) st1 Hrep1).
      destruct (for_chunks chunks st1) as [e|st2].
      * destruct IH as (us2 & es2 & rs2 & new2 & IH).
        exists us2, es2, rs2, (new1 ++ new2). by rewrite app_assoc.
      * destruct IH as (us2 & es2 & rs2 & new2 & IH & Hrep2).
        exists us2, es2, rs2, (new1 ++ new2). by rewrite app_assoc.
Qed.
End HeapRun.

(** *** The whole run *)
Section HeapWhole.
Implicit Types (h : Heap.heap) (chunks : list (gmap string string)).

Lemma alloc_third h o1 o2 o3 :
  Heap.alloc o3 (h ++ [o1; o2]) = Some (h ++ [o1; o2; o3], inr (S (S (length h)))).
Proof.
  unfold Heap.alloc. rewrite <- app_assoc, length_app. simpl.
  by replace (length h + 2) with (S (S (length h))) by lia.
Qed.

Lemma dict_values_list_eq h a entries :
  h !! a = Some (Heap.ODict entries) →
  Heap.dict_values_list a h =
  Some (h ++ [Heap.OList (dict_values entries)], inr (Heap.VRef (length h))).
Proof.
  intros Ha. unfold Heap.dict_values_list.
  rewrite (bind_ret_eq _ _ _ _ _ (load_eq _ _ _ Ha)).
  rewrite (bind_ret_eq _ _ h (h ++ [_]) (length h)) by done. done.
Qed.

Lemma result_dict_get (a b c : Heap.value) :
  let d := [ (Heap.VStr "units", a); (Heap.VStr "entities", b);
             (Heap.VStr "relationships", c) ] in
  dict_get d (Heap.VStr "units") = Some a ∧
  dict_get d (Heap.VStr "entities") = Some b ∧
  dict_get d (Heap.VStr "relationships") = Some c.
Proof. by vm_compute. Qed.

Lemma represents_empty h :
  Heap.represents (Heap.layout h [] [] [] []) [] [] [] (Locals [] [] []).
Proof. split_and!; [done|constructor|done]. Qed.

(** The object-level run refines the value-level function: started on any
    store, it ends, only allocates, and what the caller sees of it (the
    exception, or the returned dict read back) is the value-level outcome. *)
Lemma decompose_corpus_run h chunks :
  ∃ new out,
    Heap.decompose_corpus chunks h = Some (h ++ new, out) ∧
    Heap.observe (Some (h ++ new, out)) = Some (decompose_corpus chunks).
Proof.
  unfold Heap.decompose_corpus, decompose_corpus.
  rewrite (bind_ret_eq _ _ h (h ++ [_]) (length h)) by done.
  rewrite (bind_ret_eq _ _ _ _ _ (alloc_second _ _ _)).
  rewrite (bind_ret_eq _ _ _ _ _ (alloc_third _ _ _ _)).
  change (h ++ [Heap.OList []; Heap.ODict []; Heap.OList []])
    with (Heap.layout h [] [] [] []).
  pose proof (for_chunks_run h chunks [] [] [] [] _ (represents_empty h)) as Hloop.
  destruct (for_chunks chunks (Locals [] [] [])) as [e|st].
  - destruct Hloop as (us & es & rs & new & Hloop).
    rewrite (bind_raise_eq _ _ _ _ _ Hloop).
    eexists _, _. split; [by unfold Heap.layout|]. done.
  - destruct Hloop as (us & es & rs & new & Hloop & Hrep).
    rewrite (bind_ret_eq _ _ _ _ _ Hloop). simpl app in *.
    rewrite (bind_ret_eq _ _ _ _ _ (dict_values_list_eq _ _ _ (layout_entities _ _ _ _ _))).
    set (H1 := Heap.layout h us es rs new) in *.
    rewrite (bind_ret_eq _ _ (H1 ++ [_]) ((H1 ++ [_]) ++ [_]) (length (H1 ++ [_]))) by done.
    unfold Heap.ret.
    match goal with |- ∃ _ _, Some (?Hf, _) = _ ∧ _ =>
      assert (∃ new', Hf = h ++ new') as [new' Hnew]
    end.
    { eexists. unfold H1, Heap.layout. rewrite <- !app_assoc. reflexivity. }
    exists new', (inr (Heap.VRef (length (H1 ++ [Heap.OList (dict_values es)])))).
    rewrite <- Hnew. clear new' Hnew. split; [done|].
    unfold Heap.observe, Heap.read_result. rewrite lookup_last.
    destruct (result_dict_get (Heap.VRef (length h)) (Heap.VRef (length H1))
                (Heap.VRef (S (S (length h))))) as (-> & -> & ->).
    cbn [mbind option_bind].
    assert (Hvals : ((H1 ++ [Heap.OList (dict_values es)]) ++
                       [Heap.ODict [ (Heap.VStr "units", Heap.VRef (length h));
                                     (Heap.VStr "entities", Heap.VRef (length H1));
                                     (Heap.VStr "relationships",
                                       Heap.VRef (S (S (length h)))) ]]) !! length H1
                    = Some (Heap.OList (dict_values es))).
    { apply lookup_app_l_Some, lookup_last. }
    unfold Heap.read_list at 2. rewrite Hvals. clear Hvals.
    unfold H1 in *. clear H1. rewrite !layout_app.
    unfold Heap.read_list. rewrite layout_units, layout_relationships.
    destruct Hrep as (Hus & Hes & Hrs).
    assert (Hk : Heap.instances_kept (Heap.layout h us es rs new)
              (Heap.layout h us es rs ((new ++ [Heap.OList (dict_values es)]) ++
                   [Heap.ODict [ (Heap.VStr "units", Heap.VRef (length h));
                                 (Heap.VStr "entities",
                                   Heap.VRef (length (Heap.layout h us es rs new)));
                                 (Heap.VStr "relationships",
                                   Heap.VRef (S (S (length h)))) ]]))).
    { rewrite <- app_assoc. apply layout_kept. }
    erewrite (mapM_kept (Heap.read_unit _)); [|intros; by eapply read_unit_kept|exact Hus].
    erewrite (mapM_kept (Heap.read_entity _));
      [|intros; by eapply read_entity_kept|by apply reads_entries_values].
    erewrite (mapM_kept (Heap.read_relationship _));
      [|intros; by eapply read_relationship_kept|exact Hrs].
    done.
Qed.
End HeapWhole.

Lemma read_list_extends {A} (rd rd' : Heap.value → option A)
    (h new : Heap.heap) (v : Heap.value) (xs : list A) :
  (∀ w (y : A), rd w = Some y → rd' w = Some y) →
  Heap.read_list rd h v = Some xs → Heap.read_list rd' (h ++ new) v = Some xs.
Proof.
  intros Hrd. unfold Heap.read_list. destruct v as [| |a]; [done..|].
  destruct (h !! a) as [[| items |]|] eqn:Ha; [done| |done..].
  rewrite (lookup_app_l_Some _ _ _ _ Ha). by apply mapM_kept.
Qed.

Lemma read_result_extends (h new : Heap.heap) (v : Heap.value) (r : Result) :
  Heap.read_result h v = Some r → Heap.read_result (h ++ new) v = Some r.
Proof.
  unfold Heap.read_result. destruct v as [| |a]; [done..|].
  destruct (h !! a) as [[| | entries]|] eqn:Ha; [done..| |done].
  rewrite (lookup_app_l_Some _ _ _ _ Ha).
  pose proof (instances_kept_app h new) as Hk.
  intros (us & (vu & Hvu & Hus)%bind_Some & Hr)%bind_Some.
  apply bind_Some in Hr as (es & (ve & Hve & Hes)%bind_Some & Hr).
  apply bind_Some in Hr as (rs & (vr & Hvr & Hrs)%bind_Some & Hr).
  rewrite Hvu, Hve, Hvr. cbn [mbind option_bind].
  erewrite (read_list_extends (Heap.read_unit h));
    [|intros; by eapply read_unit_kept|exact Hus].
  erewrite (read_list_extends (Heap.read_entity h));
    [|intros; by eapply read_entity_kept|exact Hes].
  erewrite (read_list_extends (Heap.read_relationship h));
    [|intros; by eapply read_relationship_kept|exact Hrs].
  done.
Qed.

(** ** The pipeline contract *)

(** C1. On a sequence of well-formed records (each with exactly the fields
    content and source) [decompose_corpus] returns, and its units are one
    per record, in input order: the i-th unit carries the i-th record's
    content as its text, the i-th record's source as its source, and the
    placeholder "Mock summary" as its summary; so there are as many units
    as records. *)
Theorem decompose_corpus_units (chunks : list (gmap string string)) :
  Forall well_formed chunks →
  ∃ r, decompose_corpus chunks = inr r ∧
       length (units r) = length chunks ∧
       ∀ i d, chunks !! i = Some d →
         ∃ u, units r !! i = Some u ∧
              d !! "content" = Some (SemanticUnit.text u) ∧
              d !! "source" = Some (SemanticUnit.source u) ∧
              SemanticUnit.summary u = "Mock summary".
Proof.
  intros [cs Hcs]%ingested_well_formed.
  eexists. split; [apply decompose_corpus_inr; eauto|]. cbn [units].
  rewrite baseline_units. split.
  - rewrite length_fmap. symmetry. by eapply Forall2_length.
  - intros i d Hd.
    destruct (Forall2_lookup_l _ _ _ _ _ Hcs Hd) as (c & Hc & Hinit).
    apply TextChunk_init_inr in Hinit as (_ & Hcontent & Hsource).
    eexists. split; [by rewrite list_lookup_fmap, Hc|]. done.
Qed.

Lemma decompose_corpus_units_witness :
  ∃ r, decompose_corpus sample_chunks = inr r ∧
       length (units r) = length sample_chunks ∧
       ∀ i d, sample_chunks !! i = Some d →
         ∃ u, units r !! i = Some u ∧
              d !! "content" = Some (SemanticUnit.text u) ∧
              d !! "source" = Some (SemanticUnit.source u) ∧
              SemanticUnit.summary u = "Mock summary".
Proof.
  apply (decompose_corpus_units sample_chunks).
  repeat constructor; vm_compute; reflexivity.
Defined.

(** C2. Whenever [decompose_corpus] returns, no two entries of the
    entities of its result have the same name. *)
Theorem entities_unique_by_name (chunks : list (gmap string string)) (r : Result) :
  decompose_corpus chunks = inr r →
  NoDup (Entity.name <$> entities r).
Proof.
  intros (cs & _ & ->)%decompose_corpus_inr. cbn [entities].
  destruct (store_entities_empty_spec ((cs ≫= extract_semantic_units) ≫= extract_entities))
    as (_ & -> & _).
  apply first_seen_NoDup.
Qed.

Lemma entities_unique_by_name_witness :
  NoDup (Entity.name <$> [Entity.new "MockEntity" true]).
Proof.
  apply (entities_unique_by_name sample_chunks
           (mkResult
              [SemanticUnit.new "Hinton invented backprop." "Mock summary" "doc1.txt";
               SemanticUnit.new "LeCun developed convolutional nets." "Mock summary" "doc2.txt"]
              [Entity.new "MockEntity" true]
              [MockRel; MockRel])).
  vm_compute. reflexivity.
Defined.

(** C3. On the two-chunk example of the [__main__] block, the run yields
    the unit texts "Hinton invented backprop." and "LeCun developed
    convolutional nets.", the single entity name "MockEntity", and the
    relationship descriptions "MockRel", "MockRel". *)
Theorem sample_chunks_output :
  ∃ r, decompose_corpus sample_chunks = inr r ∧
       SemanticUnit.text <$> units r =
         ["Hinton invented backprop."; "LeCun developed convolutional nets."] ∧
       Entity.name <$> entities r = ["MockEntity"] ∧
       Relationship.description <$> relationships r = ["MockRel"; "MockRel"].
Proof. eexists. split; [vm_compute; reflexivity|]. by repeat split. Qed.

(** C5. If some record of the input lacks the field content or the field
    source, [decompose_corpus] raises a [TypeError], the error of a
    [TextChunk] constructor call on one of the records, and returns no
    result: the outcome is the exception alone, whatever the records before
    it were, and the exception is all that the caller of the object-level
    run sees. *)
Theorem missing_field_raises (chunks : list (gmap string string)) :
  Exists lacks_field chunks →
  ∃ why, decompose_corpus chunks = inl (TypeError why) ∧
         (∃ d, d ∈ chunks ∧ TextChunk_init d = inl (TypeError why)) ∧
         ∀ h, Heap.observe (Heap.decompose_corpus chunks h) = Some (inl (TypeError why)).
Proof.
  intros Hex.
  assert (Hn : ¬ Forall well_formed chunks).
  { intros Hall. apply Exists_exists in Hex as (d & Hd & Hl).
    rewrite Forall_forall in Hall. by eapply lacks_field_not_well_formed, Hall. }
  destruct (decompose_corpus_raises chunks Hn) as [why Hrun].
  exists why. split_and!; [done| |].
  - apply decompose_corpus_inl in Hrun as (pre & d & post & -> & _ & Hd).
    exists d. split; [|done]. apply elem_of_app. right. left.
  - intros h. destruct (decompose_corpus_run h chunks) as (new & out & -> & Hobs).
    by rewrite Hobs, Hrun.
Qed.

Lemma missing_field_raises_witness :
  ∃ why, decompose_corpus sample_missing_source = inl (TypeError why) ∧
         (∃ d, d ∈ sample_missing_source ∧ TextChunk_init d = inl (TypeError why)) ∧
         ∀ h, Heap.observe (Heap.decompose_corpus sample_missing_source h)
              = Some (inl (TypeError why)).
Proof.
  apply (missing_field_raises sample_missing_source).
  apply Exists_cons_tl, Exists_cons_hd. right. vm_compute. reflexivity.
Defined.

Example sample_missing_source_run :
  decompose_corpus sample_missing_source = inl (TypeError MissingArgument).
Proof. vm_compute. reflexivity. Qed.

(** C9. On the empty input [decompose_corpus] returns, with no units, no
    entities and no relationships. *)
Theorem decompose_corpus_empty :
  decompose_corpus [] = inr {| units := []; entities := []; relationships := [] |}.
Proof. reflexivity. Qed.

Lemma result_entities_extracted (chunks : list (gmap string string)) (r : Result) :
  decompose_corpus chunks = inr r →
  entities r = dict_values (store_entities [] (units r ≫= extract_entities)) ∧
  relationships r = units r ≫= extract_relationships.
Proof. by intros (cs & _ & ->)%decompose_corpus_inr. Qed.



(** Two entities of one name, the second with another flag: the dict keeps
    the place of the first and the record of the second. *)
Example last_write_wins_example :
  dict_values (store_entities []
     [Entity.new "Hinton" true; Entity.new "LeCun" true; Entity.new "Hinton" false])
  = [Entity.new "Hinton" false; Entity.new "LeCun" true].
Proof. reflexivity. Qed.







Example sample_extra_field_run :
  decompose_corpus sample_extra_field = inl (TypeError UnexpectedKeyword).
Proof. vm_compute. reflexivity. Qed.

(** C8. The unit extractor leaves its chunk as it found it. Run on any
    object of the store, it ends (with a list of units, or with an
    [AttributeError] when the object has no content or no source), and in
    the store it leaves the object, like every object that was there, is
    unchanged: its attributes read as before, content and source among
    them. The store and the exception are the only effects of the
    embedding; the extractor only allocates. On a [TextChunk] it returns
    the list of units the value-level extractor returns. *)
Theorem extract_semantic_units_keeps_chunk
    (h : Heap.heap) (a : Heap.addr) (o : Heap.obj) :
  h !! a = Some o →
  ∃ h' out,
    Heap.extract_semantic_units (Heap.VRef a) h = Some (h', out) ∧
    h' !! a = Some o ∧
    (∀ b o', h !! b = Some o' → h' !! b = Some o') ∧
    (∀ n, snd <$> Heap.getattr (Heap.VRef a) n h' =
          snd <$> Heap.getattr (Heap.VRef a) n h) ∧
    Heap.read_chunk h' (Heap.VRef a) = Heap.read_chunk h (Heap.VRef a) ∧
    ∀ c, Heap.read_chunk h (Heap.VRef a) = Some c →
         ∃ l, out = inr l ∧
              Heap.read_list (Heap.read_unit h') h' l = Some (extract_semantic_units c).
Proof.
  intros Ha. destruct (extract_semantic_units_extends h a o Ha) as (new & out & Hrun).
  exists (h ++ new), out.
  assert (Hkept : ∀ b o', h !! b = Some o' → (h ++ new) !! b = Some o')
    by (intros; by apply lookup_app_l_Some).
  split_and!; [done|by apply Hkept|done|intros; by eapply getattr_result_extends| |].
  - unfold Heap.read_chunk, Heap.read_attrs. by rewrite (Hkept _ _ Ha), Ha.
  - intros c (a' & attrs & [= <-] & Ha' & Hc & Hs)%read_chunk_Some.
    rewrite (extract_semantic_units_eq _ _ _ _ _ _ Ha' Hc Hs) in Hrun.
    injection Hrun as Hnew <-. apply app_inv_head in Hnew. subst new.
    eexists. split; [done|]. unfold Heap.read_list.
    rewrite lookup_last2_snd. simpl.
    erewrite read_unit_new by apply lookup_last2_fst. done.
Qed.

Lemma extract_semantic_units_keeps_chunk_witness :
  let chunk := Heap.OInstance Heap.CTextChunk
                 (<["source" := Heap.VStr "doc1.txt"]>
                    (<["content" := Heap.VStr "Hinton invented backprop."]> ∅)) in
  ∃ h' out,
    Heap.extract_semantic_units (Heap.VRef 0) [chunk] = Some (h', out) ∧
    h' !! 0 = Some chunk ∧
    (∀ b o', [chunk] !! b = Some o' → h' !! b = Some o') ∧
    (∀ n, snd <$> Heap.getattr (Heap.VRef 0) n h' =
          snd <$> Heap.getattr (Heap.VRef 0) n [chunk]) ∧
    Heap.read_chunk h' (Heap.VRef 0) = Heap.read_chunk [chunk] (Heap.VRef 0) ∧
    ∀ c, Heap.read_chunk [chunk] (Heap.VRef 0) = Some c →
         ∃ l, out = inr l ∧
              Heap.read_list (Heap.read_unit h') h' l = Some (extract_semantic_units c).
Proof.
  intros chunk. apply (extract_semantic_units_keeps_chunk [chunk] 0 chunk).
  reflexivity.
Defined.

(** C4. [decompose_corpus] keeps no state between runs. Started on any
    store, a run ends, and what its caller sees (the exception, or the
    units, entities and relationships of the returned dict, field by field
    and in order) is the value-level outcome, a function of the input
    records alone. So a second run on the same records, started on the
    store the first run left, shows the same outcome as the first, and
    leaves what the first returned as it was. *)
Theorem decompose_corpus_deterministic
    (chunks : list (gmap string string)) (h : Heap.heap) :
  ∃ h1 out1 h2 out2,
    Heap.decompose_corpus chunks h = Some (h1, out1) ∧
    Heap.decompose_corpus chunks h1 = Some (h2, out2) ∧
    Heap.observe (Some (h1, out1)) = Some (decompose_corpus chunks) ∧
    Heap.observe (Some (h2, out2)) = Heap.observe (Some (h1, out1)) ∧
    Heap.observe (Some (h2, out1)) = Heap.observe (Some (h1, out1)) ∧
    ∀ h', Heap.observe (Heap.decompose_corpus chunks h') = Some (decompose_corpus chunks).
Proof.
  destruct (decompose_corpus_run h chunks) as (new1 & out1 & Hrun1 & Hobs1).
  destruct (decompose_corpus_run (h ++ new1) chunks) as (new2 & out2 & Hrun2 & Hobs2).
  exists (h ++ new1), out1, ((h ++ new1) ++ new2), out2.
  split_and!; [done|done|done|congruence| |].
  - rewrite Hobs1. destruct out1 as [e|v]; [done|]. simpl in *.
    destruct (Heap.read_result (h ++ new1) v) as [r|] eqn:Hr; [|done].
    by rewrite (read_result_extends _ new2 _ _ Hr).
  - intros h'. destruct (decompose_corpus_run h' chunks) as (new & out & -> & Hobs).
    done.
Qed.

(** ** Further properties of the value-level embedding *)

(** *** Dicts are determined by their keys and their lookups *)
Section PyDictExt.
Context {K V : Type} `{EqDecision K}.
Implicit Types (d : list (K * V)) (k : K) (v : V).

Lemma dict_get_None d k : k ∉ dict_keys d → dict_get d k = None.
Proof.
  unfold dict_keys. induction d as [|[k0 v0] d IH]; [done|].
  rewrite fmap_cons, not_elem_of_cons. cbn [fst dict_get]. intros [Hne Hk].
  rewrite decide_False by congruence. by apply IH.
Qed.

Lemma dict_ext d1 d2 :
  NoDup (dict_keys d1) →
  dict_keys d1 = dict_keys d2 →
  (∀ k, dict_get d1 k = dict_get d2 k) →
  d1 = d2.
Proof.
  unfold dict_keys. revert d2.
  induction d1 as [|[k1 v1] d1 IH]; intros [|[k2 v2] d2] Hnd Hkeys Hget;
    try done.
  rewrite !fmap_cons in Hkeys. cbn [fst] in Hkeys. injection Hkeys as -> Hkeys.
  rewrite fmap_cons in Hnd. cbn [fst] in Hnd. apply NoDup_cons in Hnd as [Hk2 Hnd].
  pose proof (Hget k2) as Hhead. cbn [dict_get] in Hhead.
  rewrite !decide_True in Hhead by done. injection Hhead as ->.
  f_equal. apply IH; [done..|]. intros k.
  destruct (decide (k2 = k)) as [<-|Hne].
  - rewrite (dict_get_None d1), (dict_get_None d2); [done| |done].
    unfold dict_keys. by rewrite <- Hkeys.
  - specialize (Hget k). cbn [dict_get] in Hget.
    by rewrite !decide_False in Hget by done.
Qed.
End PyDictExt.

(** *** More about the entity aggregation *)
Section AggregationMore.
Implicit Types (d : list (string * Entity.t)) (es : list Entity.t).

Lemma first_seen_NoDup_id (ks : list string) : NoDup ks → first_seen ks = ks.
Proof.
  induction 1 as [|k ks Hk _ IH]; [done|]. cbn [first_seen]. rewrite IH.
  f_equal. apply filter_all, Forall_forall. by intros k' Hk' ->.
Qed.

Lemma named_elem_of n e es : e ∈ named n es ↔ e ∈ es ∧ Entity.name e = n.
Proof. unfold named. rewrite list_elem_of_filter. naive_solver. Qed.

Lemma named_nil n es : n ∉ (Entity.name <$> es) → named n es = [].
Proof.
  intros Hn. unfold named. induction es as [|e es IH]; [done|].
  rewrite fmap_cons, not_elem_of_cons in Hn. destruct Hn as [Hne Hn].
  rewrite filter_cons_False by congruence. by apply IH.
Qed.

Lemma named_unique e es :
  NoDup (Entity.name <$> es) → e ∈ es → named (Entity.name e) es = [e].
Proof.
  intros Hnd He. unfold named.
  induction es as [|e0 es IH]; [by apply elem_of_nil in He|].
  rewrite fmap_cons in Hnd. apply NoDup_cons in Hnd as [Hn0 Hnd].
  apply elem_of_cons in He as [->|He].
  - rewrite filter_cons_True by done. f_equal. by apply named_nil.
  - rewrite filter_cons_False.
    + by apply IH.
    + intros Heq. apply Hn0. rewrite Heq. by apply list_elem_of_fmap_2.
Qed.

Lemma last_named_elem_of n e es :
  last (named n es) = Some e → e ∈ es ∧ Entity.name e = n.
Proof. intros He%last_Some_elem_of. by apply named_elem_of. Qed.

Lemma named_is_nil n es : named n es = [] → n ∉ (Entity.name <$> es).
Proof.
  intros Hnil (e & -> & He)%list_elem_of_fmap.
  assert (e ∈ named (Entity.name e) es) as Hin by by apply named_elem_of.
  rewrite Hnil in Hin. by apply elem_of_nil in Hin.
Qed.

Lemma keyed_by_name_rekey d :
  keyed_by_name d → d = rekey (dict_values d).
Proof.
  unfold keyed_by_name, rekey, dict_values.
  induction 1 as [|[k e] d Hk _ IH]; [done|].
  rewrite !fmap_cons. cbn [fst snd] in *. by rewrite <- IH, Hk.
Qed.

Lemma rekey_keys es : dict_keys (rekey es) = Entity.name <$> es.
Proof.
  unfold dict_keys, rekey. rewrite <- list_fmap_compose. done.
Qed.

(** The values of the dict that [es] fills from empty stand for [es]
    itself: stored into any dict, they give what [es] gives. *)
Lemma store_entities_values d es :
  NoDup (dict_keys d) →
  store_entities d (dict_values (store_entities [] es)) = store_entities d es.
Proof.
  intros Hnd.
  destruct (store_entities_empty_spec es) as (Hkeys & Hnames & Hlast).
  set (vs := dict_values (store_entities [] es)) in *.
  assert (Hvs_nd : NoDup (Entity.name <$> vs))
    by (rewrite Hnames; apply first_seen_NoDup).
  apply dict_ext.
  - by apply store_entities_NoDup.
  - rewrite !store_entities_keys, Hnames.
    by rewrite (first_seen_NoDup_id _ (first_seen_NoDup _)).
  - intros n. rewrite !store_entities_get.
    destruct (last (named n es)) as [e|] eqn:Hn.
    + assert (e ∈ vs) as Hin.
      { apply dict_values_elem_of. exists n. apply dict_get_Some.
        - apply store_entities_NoDup. constructor.
        - by rewrite store_entities_get, Hn. }
      apply last_named_elem_of in Hn as [_ <-].
      by rewrite (named_unique _ _ Hvs_nd Hin).
    + rewrite named_nil; [done|]. rewrite Hnames, first_seen_elem_of.
      apply named_is_nil. by apply last_None.
Qed.
End AggregationMore.

(** *** Batches *)
Section Batches.
Implicit Types (xs ys chunks : list (gmap string string)).

Lemma ingested_app xs ys cs1 cs2 :
  ingested xs cs1 → ingested ys cs2 → ingested (xs ++ ys) (cs1 ++ cs2).
Proof. apply Forall2_app. Qed.

Lemma result_keyed chunks r :
  decompose_corpus chunks = inr r →
  store_entities [] (units r ≫= extract_entities) = rekey (entities r).
Proof.
  intros [-> _]%result_entities_extracted.
  apply keyed_by_name_rekey, store_entities_keyed. constructor.
Qed.

Lemma decompose_corpus_app_inr xs ys r1 r2 :
  decompose_corpus xs = inr r1 → decompose_corpus ys = inr r2 →
  decompose_corpus (xs ++ ys) = inr (merge_results r1 r2).
Proof.
  intros H1 H2.
  pose proof (result_keyed _ _ H1) as Hk1.
  destruct (result_entities_extracted _ _ H2) as [He2 _].
  apply decompose_corpus_inr in H1 as (cs1 & Hcs1 & ->).
  apply decompose_corpus_inr in H2 as (cs2 & Hcs2 & ->).
  apply decompose_corpus_inr. exists (cs1 ++ cs2).
  split; [by apply ingested_app|]. cbn [units entities relationships] in *.
  unfold merge_results. cbn [units entities relationships].
  rewrite !bind_app, store_entities_app.
  set (D1 := store_entities [] ((cs1 ≫= extract_semantic_units) ≫= extract_entities))
    in *.
  rewrite <- Hk1, store_entities_values; [done|].
  apply store_entities_NoDup. constructor.
Qed.

Lemma returns_well_formed chunks r :
  decompose_corpus chunks = inr r → Forall well_formed chunks.
Proof.
  intros (cs & Hcs & _)%decompose_corpus_inr. apply ingested_well_formed. eauto.
Qed.
End Batches.

(** X1. [decompose_corpus] returns a result exactly when every record of
    its input has the fields content and source and no other; on any other
    input it raises. *)
Theorem decompose_corpus_returns_iff (chunks : list (gmap string string)) :
  (∃ r, decompose_corpus chunks = inr r) ↔ Forall well_formed chunks.
Proof.
  rewrite ingested_well_formed. split.
  - intros [r (cs & Hcs & _)%decompose_corpus_inr]. eauto.
  - intros [cs Hcs]. eexists. apply decompose_corpus_inr. eauto.
Qed.

(** X2. The run fails on the first error: when the records before a record
    are well formed and the constructor call on that record raises, the run
    raises that very exception, whatever the records after it are; they
    are never looked at. *)
Theorem first_error_wins (pre post : list (gmap string string))
    (d : gmap string string) (e : exn) :
  Forall well_formed pre →
  TextChunk_init d = inl e →
  decompose_corpus (pre ++ d :: post) = inl e.
Proof. intros Hpre Hd. apply decompose_corpus_inl. by exists pre, d, post. Qed.

Lemma first_error_wins_witness :
  decompose_corpus
    ([ {[ "content" := "Hinton invented backprop."; "source" := "doc1.txt" ]} ]
     ++ {[ "content" := "LeCun developed convolutional nets." ]}
     :: [ {[ "content" := "x"; "source" := "y"; "page" := "3" ]} ])
  = inl (TypeError MissingArgument).
Proof.
  apply (first_error_wins
           [ {[ "content" := "Hinton invented backprop."; "source" := "doc1.txt" ]} ]
           [ {[ "content" := "x"; "source" := "y"; "page" := "3" ]} ]
           {[ "content" := "LeCun developed convolutional nets." ]}
           (TypeError MissingArgument)).
  - repeat constructor; vm_compute; reflexivity.
  - vm_compute. reflexivity.
Defined.

(** X3. Running [decompose_corpus] on two batches in a row is running it on
    each batch and joining the outcomes: the first exception met is the
    outcome; else the units and the relationships of the two results follow
    one another, and the entities are those of the first result with the
    entities of the second stored over them by name. *)
Theorem decompose_corpus_app (xs ys : list (gmap string string)) :
  decompose_corpus (xs ++ ys) =
  then_batch (decompose_corpus xs) (decompose_corpus ys).
Proof.
  destruct (decompose_corpus xs) as [e|r1] eqn:H1.
  - apply decompose_corpus_inl in H1 as (pre & d & post & -> & Hpre & Hd).
    cbn [then_batch]. rewrite <- app_assoc. cbn [app].
    apply decompose_corpus_inl. by exists pre, d, (post ++ ys).
  - destruct (decompose_corpus ys) as [e|r2] eqn:H2; cbn [then_batch].
    + apply decompose_corpus_inl in H2 as (pre & d & post & -> & Hpre & Hd).
      rewrite app_assoc. apply decompose_corpus_inl.
      exists (xs ++ pre), d, post. split_and!; [done| |done].
      apply Forall_app. split; [|done].
      by eapply returns_well_formed.
    + by apply decompose_corpus_app_inr.
Qed.

Lemma baseline_entities (us : list SemanticUnit.t) :
  us ≫= extract_entities = replicate (length us) MockEntity.
Proof. induction us as [|u us IH]; [done|]. rewrite bind_cons, IH. done. Qed.

Lemma store_entities_replicate (n : nat) :
  store_entities [("MockEntity", MockEntity)] (replicate n MockEntity)
  = [("MockEntity", MockEntity)].
Proof. induction n as [|n IH]; [done|]. done. Qed.

Lemma fmap_all_replicate {A B} (y : B) (l : list A) :
  (λ _, y) <$> l = replicate (length l) y.
Proof. induction l as [|x l IH]; [done|]. by rewrite fmap_cons, IH. Qed.

(** X4. Under the baseline extractors the entities and the relationships of
    a result depend on the number of input records alone, not on what the
    records hold: the entities are the one "MockEntity", entry point, (none
    on the empty input) and the relationships are as many copies of the one
    "MockRel" as there are records. *)
Theorem baseline_entities_relationships (chunks : list (gmap string string)) :
  Forall well_formed chunks →
  ∃ r, decompose_corpus chunks = inr r ∧
       entities r = match chunks with [] => [] | _ :: _ => [MockEntity] end ∧
       relationships r = replicate (length chunks) MockRel.
Proof.
  intros [cs Hcs]%ingested_well_formed.
  eexists. split; [apply decompose_corpus_inr; eauto|].
  cbn [entities relationships].
  rewrite baseline_entities, baseline_relationships, baseline_units.
  rewrite fmap_all_replicate, !length_fmap, <- (Forall2_length _ _ _ Hcs).
  split; [|done].
  destruct Hcs as [|d c ds cs' _ _]; [done|]. cbn [length replicate].
  rewrite store_entities_cons. cbn [dict_setitem Entity.name MockEntity].
  by rewrite store_entities_replicate.
Qed.

Lemma baseline_entities_relationships_witness :
  ∃ r, decompose_corpus sample_chunks = inr r ∧
       entities r = [MockEntity] ∧
       relationships r = replicate (length sample_chunks) MockRel.
Proof.
  apply (baseline_entities_relationships sample_chunks).
  repeat constructor; vm_compute; reflexivity.
Defined.

Lemma filter_none (ks ls : list string) :
  (∀ k, k ∈ ls → k ∈ ks) → filter (λ k, k ∉ ks) ls = [].
Proof.
  induction ls as [|l ls IH]; intros Hsub; [done|].
  rewrite filter_cons_False.
  - apply IH. intros k Hk. apply Hsub. by right.
  - intros Hl. apply Hl, Hsub. left.
Qed.

(** X5. Storing the same entities a second time changes nothing: the
    aggregation of lines 54-55, run twice over one sequence of entities,
    leaves the dict that one run leaves (the keys of a dict are distinct). *)
Theorem store_entities_idempotent
    (d : list (string * Entity.t)) (es : list Entity.t) :
  NoDup (dict_keys d) →
  store_entities (store_entities d es) es = store_entities d es.
Proof.
  intros Hnd. apply dict_ext.
  - by do 2 apply store_entities_NoDup.
  - rewrite (store_entities_keys (store_entities d es)).
    rewrite <- (app_nil_r (dict_keys (store_entities d es))) at 2. f_equal.
    rewrite store_entities_keys. apply filter_none. intros k Hk.
    rewrite elem_of_app, list_elem_of_filter.
    destruct (decide (k ∈ dict_keys d)); [by left|by right].
  - intros n. rewrite (store_entities_get (store_entities d es)).
    destruct (last (named n es)) as [e|] eqn:Hn; [|done].
    by rewrite store_entities_get, Hn.
Qed.

Lemma store_entities_idempotent_witness :
  let es := [Entity.new "Hinton" true; Entity.new "LeCun" true;
             Entity.new "Hinton" false] in
  store_entities (store_entities [("LeCun", Entity.new "LeCun" false)] es) es
  = store_entities [("LeCun", Entity.new "LeCun" false)] es.
Proof.
  intros es.
  apply (store_entities_idempotent [("LeCun", Entity.new "LeCun" false)] es).
  repeat constructor. apply not_elem_of_nil.
Defined.

(** X6. The aggregation only adds and overwrites. Stored into a dict, a
    sequence of entities leaves the keys of the dict in place, ahead of
    the new ones; the record of a name that no stored entity bears is the
    record it was; and every stored entity's name is a key afterwards. *)
Theorem store_entities_keeps (d : list (string * Entity.t)) (es : list Entity.t) :
  dict_keys d `prefix_of` dict_keys (store_entities d es) ∧
  (∀ n, n ∉ (Entity.name <$> es) →
        dict_get (store_entities d es) n = dict_get d n) ∧
  (∀ e, e ∈ es → Entity.name e ∈ dict_keys (store_entities d es)).
Proof.
  split_and!.
  - rewrite store_entities_keys. by eexists.
  - intros n Hn. by rewrite store_entities_get, named_nil.
  - intros e He. rewrite store_entities_keys, elem_of_app, list_elem_of_filter.
    destruct (decide (Entity.name e ∈ dict_keys d)); [by left|right].
    split; [done|]. apply first_seen_elem_of. by apply list_elem_of_fmap_2.
Qed.

(** ** Further properties of the object-level embedding *)

(** X7. [decompose_corpus] only allocates. Run from any store and on any
    input, it ends, and whether it returns or raises, every object that was
    in the store is there unchanged afterwards, so a result returned by an
    earlier run still reads as it did. *)
Theorem decompose_corpus_only_allocates
    (chunks : list (gmap string string)) (h : Heap.heap) :
  ∃ new out,
    Heap.decompose_corpus chunks h = Some (h ++ new, out) ∧
    (∀ a o, h !! a = Some o → (h ++ new) !! a = Some o) ∧
    (∀ v r, Heap.read_result h v = Some r → Heap.read_result (h ++ new) v = Some r).
Proof.
  destruct (decompose_corpus_run h chunks) as (new & out & Hrun & _).
  exists new, out. split_and!; [done| |].
  - intros a o. apply lookup_app_l_Some.
  - intros v r. apply read_result_extends.
Qed.

(** X8. The entity and the relationship extractor never look at their
    argument: called on any value, a unit or not, from any store, they
    return without raising, allocate a new instance and a new one-element
    list that refers to it, and leave every object of the store as it was.
    The list reads back as the value-level extractor's result, and being
    new it is shared with no earlier call. *)
Theorem extractors_allocate_fresh (unit : Heap.value) (h : Heap.heap) :
  (∃ e, Heap.extract_entities unit h
          = Some (h ++ [e; Heap.OList [Heap.VRef (length h)]],
                  inr (Heap.VRef (S (length h)))) ∧
        ∀ u, Heap.read_list
               (Heap.read_entity (h ++ [e; Heap.OList [Heap.VRef (length h)]]))
               (h ++ [e; Heap.OList [Heap.VRef (length h)]])
               (Heap.VRef (S (length h)))
             = Some (extract_entities u)) ∧
  (∃ r, Heap.extract_relationships unit h
          = Some (h ++ [r; Heap.OList [Heap.VRef (length h)]],
                  inr (Heap.VRef (S (length h)))) ∧
        ∀ u, Heap.read_list
               (Heap.read_relationship (h ++ [r; Heap.OList [Heap.VRef (length h)]]))
               (h ++ [r; Heap.OList [Heap.VRef (length h)]])
               (Heap.VRef (S (length h)))
             = Some (extract_relationships u)).
Proof.
  split.
  - eexists. split; [apply extract_entities_eq|]. intros u.
    unfold Heap.read_list. rewrite lookup_last2_snd. cbn [mapM].
    erewrite read_entity_new by apply lookup_last2_fst. done.
  - eexists. split; [apply extract_relationships_eq|]. intros u.
    unfold Heap.read_list. rewrite lookup_last2_snd. cbn [mapM].
    erewrite read_relationship_new by apply lookup_last2_fst. done.
Qed.

(** X9. What the constructors of [SemanticUnit], [Entity] and
    [Relationship] build is what they were given: each allocates one
    instance, at the next address, touches no other object, and the
    instance reads back as the record of the arguments. *)
Theorem constructors_read_back (h : Heap.heap)
    (u : SemanticUnit.t) (e : Entity.t) (r : Relationship.t) :
  (∃ o, Heap.SemanticUnit_new (Heap.VStr (SemanticUnit.text u))
          (Heap.VStr (SemanticUnit.summary u)) (Heap.VStr (SemanticUnit.source u)) h
        = Some (h ++ [o], inr (Heap.VRef (length h))) ∧
        Heap.read_unit (h ++ [o]) (Heap.VRef (length h)) = Some u) ∧
  (∃ o, Heap.Entity_new (Heap.VStr (Entity.name e))
          (Heap.VBool (Entity.is_entry_point e)) h
        = Some (h ++ [o], inr (Heap.VRef (length h))) ∧
        Heap.read_entity (h ++ [o]) (Heap.VRef (length h)) = Some e) ∧
  (∃ o, Heap.Relationship_new (Heap.VStr (Relationship.description r))
          (Heap.VStr (Relationship.source r)) (Heap.VStr (Relationship.target r)) h
        = Some (h ++ [o], inr (Heap.VRef (length h))) ∧
        Heap.read_relationship (h ++ [o]) (Heap.VRef (length h)) = Some r).
Proof.
  split_and!.
  - eexists. split; [apply SemanticUnit_new_eq|]. unfold Heap.read_unit.
    rewrite (proj2 (read_attrs_Some _ _ _ _)) by (eexists; split; [done|apply lookup_last]).
    simplify_map_eq. by destruct u.
  - eexists. split; [apply Entity_new_eq|]. unfold Heap.read_entity.
    rewrite (proj2 (read_attrs_Some _ _ _ _)) by (eexists; split; [done|apply lookup_last]).
    simplify_map_eq. by destruct e.
  - eexists. split; [apply Relationship_new_eq|]. unfold Heap.read_relationship.
    rewrite (proj2 (read_attrs_Some _ _ _ _)) by (eexists; split; [done|apply lookup_last]).
    simplify_map_eq. by destruct r.
Qed.

(** X10. The [TextChunk] constructor call on the store allocates the
    instance before it binds the record's fields. When the binding
    succeeds the new instance reads back as the chunk of the record's
    content and source; when it fails the call raises the value-level
    [TypeError] and returns no reference to the instance it allocated. In
    both cases no other object is touched. *)
Theorem TextChunk_new_refines (d : gmap string string) (h : Heap.heap) :
  ∃ o out,
    Heap.TextChunk_new d h = Some (h ++ [o], out) ∧
    match TextChunk_init d with
    | inr c => out = inr (Heap.VRef (length h)) ∧
               Heap.read_chunk (h ++ [o]) (Heap.VRef (length h)) = Some c
    | inl e => out = inl e
    end.
Proof.
  pose proof (TextChunk_new_eq h d) as Hnew.
  destruct (TextChunk_init d) as [e|c]; eexists _, _; (split; [exact Hnew|]).
  - done.
  - split; [done|]. apply read_chunk_Some. eexists _, _.
    split_and!; [done|apply lookup_last|by simplify_map_eq..].
Qed.

(** *** The store a run leaves, object by object *)
Section HeapExact.
Variable h0 : Heap.heap.
Implicit Types (tail : Heap.heap) (us rs : list Heap.value).
Implicit Types (es : list (Heap.value * Heap.value)).

Lemma layout_length us es rs tail :
  length (Heap.layout h0 us es rs tail) = length h0 + 3 + length tail.
Proof. unfold Heap.layout. rewrite length_app. simpl. lia. Qed.

Lemma dict_setitem_twice {K V} `{EqDecision K} (d : list (K * V)) k v1 v2 :
  dict_setitem (dict_setitem d k v1) k v2 = dict_setitem d k v2.
Proof.
  induction d as [|[k0 v0] d IH]; cbn [dict_setitem].
  - by rewrite decide_True.
  - destruct (decide (k0 = k)) as [->|Hne]; cbn [dict_setitem].
    + by rewrite decide_True.
    + by rewrite decide_False, IH.
Qed.

Lemma unit_body_exact us es rs tail unit :
  let n := length h0 + 3 + length tail in
  Heap.unit_body (length h0) (S (length h0)) (S (S (length h0))) unit
                 (Heap.layout h0 us es rs tail)
  = Some (Heap.layout h0 (us ++ [unit])
            (dict_setitem es (Heap.VStr "MockEntity") (Heap.VRef n))
            (rs ++ [Heap.VRef (n + 2)])
            (tail ++ [entity_instance; Heap.OList [Heap.VRef n];
                      relationship_instance; Heap.OList [Heap.VRef (n + 2)]]),
          inr tt).
Proof.
  intros n. unfold Heap.unit_body.
  rewrite (bind_ret_eq _ _ _ _ _ (list_append_eq _ _ _ _ (layout_units _ _ _ _ _))).
  rewrite layout_set_units.
  rewrite (bind_ret_eq _ _ _ _ _ (extract_entities_eq _ _)).
  rewrite (bind_ret_eq _ _ _ _ _ (list_items_eq _ _ _ (lookup_last2_snd _ _ _))).
  cbn [Heap.for_each]. rewrite !bind_assoc.
  rewrite (bind_ret_eq _ _ _ _ _
             (getattr_eq _ _ _ _ _ _ (lookup_last2_fst _ _ _) MockEntity_name)).
  rewrite layout_app.
  rewrite (bind_ret_eq _ _ _ _ _ (dict_store_eq _ _ _ _ _ (layout_entities _ _ _ _ _))).
  rewrite layout_set_entities.
  rewrite (bind_ret_eq _ _ _ _ tt) by done.
  rewrite (bind_ret_eq _ _ _ _ _ (extract_relationships_eq _ _)).
  rewrite (bind_ret_eq _ _ _ _ _ (list_items_eq _ _ _ (lookup_last2_snd _ _ _))).
  cbn [Heap.for_each]. rewrite layout_app.
  rewrite (bind_ret_eq _ _ _ _ _
             (list_append_eq _ _ _ _ (layout_relationships _ _ _ _ _))).
  rewrite layout_set_relationships. unfold Heap.ret.
  rewrite !layout_length, length_app, <- app_assoc. cbn [length app].
  replace (length h0 + 3 + (length tail + 2)) with (n + 2) by (unfold n; lia).
  done.
Qed.
Lemma chunk_body_exact us es rs tail (d : gmap string string) (c : TextChunk.t) :
  TextChunk_init d = inr c →
  let n := length h0 + 3 + length tail in
  Heap.chunk_body (length h0) (S (length h0)) (S (S (length h0))) d
                  (Heap.layout h0 us es rs tail)
  = Some (Heap.layout h0 (us ++ [Heap.VRef (n + 1)])
            (dict_setitem es (Heap.VStr "MockEntity") (Heap.VRef (n + 3)))
            (rs ++ [Heap.VRef (n + 5)])
            (tail ++ chunk_objects n c),
          inr tt).
Proof.
  intros Hd n. unfold Heap.chunk_body.
  pose proof (TextChunk_new_eq (Heap.layout h0 us es rs tail) d) as Hnew.
  rewrite Hd in Hnew. rewrite (bind_ret_eq _ _ _ _ _ Hnew). clear Hnew.
  destruct (chunk_attrs (Heap.VStr (TextChunk.content c))
                        (Heap.VStr (TextChunk.source c))) as [Hc Hs].
  rewrite (bind_ret_eq _ _ _ _ _
             (extract_semantic_units_eq _ _ _ _ _ _ (lookup_last _ _) Hc Hs)).
  rewrite (bind_ret_eq _ _ _ _ _ (list_items_eq _ _ _ (lookup_last2_snd _ _ _))).
  cbn [Heap.for_each]. rewrite !layout_app.
  rewrite (bind_ret_eq _ _ _ _ _ (unit_body_exact _ _ _ _ _)).
  unfold Heap.ret. rewrite !layout_length, !length_app, <- !app_assoc.
  cbn [length app]. unfold chunk_objects, chunk_instance, unit_instance.
  replace (length h0 + 3 + (length tail + 1)) with (n + 1) by (unfold n; lia).
  replace (length h0 + 3 + (length tail + 1 + 2)) with (n + 3) by (unfold n; lia).
  replace (n + 3 + 2) with (n + 5) by lia.
  done.
Qed.
Lemma refs_S (n off k : nat) :
  refs n off (S k) = Heap.VRef (n + off) :: refs (n + 7) off k.
Proof.
  unfold refs. cbn [seq]. rewrite fmap_cons. f_equal; [f_equal; lia|].
  rewrite <- fmap_S_seq, <- list_fmap_compose.
  apply list_fmap_ext. intros i x _. simpl. f_equal. lia.
Qed.

Lemma run_objects_length (n : nat) (cs : list TextChunk.t) :
  length (run_objects n cs) = 7 * length cs.
Proof.
  revert n. induction cs as [|c cs IH]; intros n; [done|].
  cbn [run_objects]. rewrite length_app, IH. cbn [chunk_objects length]. lia.
Qed.

Lemma for_each_exact (chunks : list (gmap string string)) (cs : list TextChunk.t) :
  ingested chunks cs →
  ∀ us es rs tail,
    Heap.for_each chunks
      (Heap.chunk_body (length h0) (S (length h0)) (S (S (length h0))))
      (Heap.layout h0 us es rs tail)
    = Some (Heap.layout h0
              (us ++ refs (length h0 + 3 + length tail) 1 (length cs))
              (match length cs with
               | 0 => es
               | S k' => dict_setitem es (Heap.VStr "MockEntity")
                           (Heap.VRef (length h0 + 3 + length tail + 7 * k' + 3))
               end)
              (rs ++ refs (length h0 + 3 + length tail) 5 (length cs))
              (tail ++ run_objects (length h0 + 3 + length tail) cs),
            inr tt).
Proof.
  unfold ingested. induction 1 as [|d c chunks cs Hd _ IH]; intros us es rs tail.
  - cbn [Heap.for_each length run_objects]. unfold refs. cbn [seq fmap list_fmap].
    by rewrite !app_nil_r.
  - cbn [Heap.for_each].
    rewrite (bind_ret_eq _ _ _ _ _ (chunk_body_exact _ _ _ _ _ _ Hd)).
    rewrite IH. clear IH. set (n := length h0 + 3 + length tail).
    replace (length h0 + 3 + length (tail ++ chunk_objects n c)) with (n + 7)
      by (rewrite length_app; cbn [chunk_objects length]; unfold n; lia).
    cbn [length run_objects]. rewrite !refs_S, <- !app_assoc. cbn [app].
    do 2 f_equal. f_equal.
    destruct (length cs) as [|k'].
    + do 2 f_equal. lia.
    + rewrite dict_setitem_twice. do 2 f_equal. lia.
Qed.
End HeapExact.

(** X11. The store a run on well-formed input leaves, object by object.
    Started on a store [h], [decompose_corpus] allocates its three
    accumulators at the next three addresses, then seven objects for every
    record (the chunk, its unit and the unit's list, an entity and its
    list, a relationship and its list), then the list of the dict's values
    and the returned dict, and nothing else. The units list refers to the
    units in input order and the relationships list to the relationships;
    the entities dict and the entities list refer to one object only, the
    entity built for the last record: the assignment of line 55 replaced
    the entity of every earlier record, which no returned object refers
    to. The returned dict holds the units and relationships accumulators
    themselves and the new entities list. *)
Theorem decompose_corpus_object_graph
    (chunks : list (gmap string string)) (cs : list TextChunk.t) (h : Heap.heap) :
  ingested chunks cs →
  let n := length h + 3 in
  let k := length cs in
  Heap.decompose_corpus chunks h =
  Some (h ++ [Heap.OList (refs n 1 k); Heap.ODict (kept_entity n k);
              Heap.OList (refs n 5 k)]
          ++ run_objects n cs
          ++ [Heap.OList (dict_values (kept_entity n k));
              Heap.ODict [ (Heap.VStr "units", Heap.VRef (length h));
                           (Heap.VStr "entities", Heap.VRef (n + 7 * k));
                           (Heap.VStr "relationships", Heap.VRef (length h + 2)) ]],
        inr (Heap.VRef (n + 7 * k + 1))).
Proof.
  intros Hcs n k. unfold Heap.decompose_corpus.
  rewrite (bind_ret_eq _ _ h (h ++ [_]) (length h)) by done.
  rewrite (bind_ret_eq _ _ _ _ _ (alloc_second _ _ _)).
  rewrite (bind_ret_eq _ _ _ _ _ (alloc_third _ _ _ _)).
  change (h ++ [Heap.OList []; Heap.ODict []; Heap.OList []])
    with (Heap.layout h [] [] [] []).
  rewrite (bind_ret_eq _ _ _ _ _ (for_each_exact h chunks cs Hcs [] [] [] [])).
  cbn [length app]. rewrite Nat.add_0_r. fold n k.
  assert (Hkept : match k with
                  | 0 => []
                  | S k' => dict_setitem [] (Heap.VStr "MockEntity")
                              (Heap.VRef (n + 7 * k' + 3))
                  end = kept_entity n k) by by destruct k.
  rewrite Hkept. clear Hkept.
  rewrite (bind_ret_eq _ _ _ _ _ (dict_values_list_eq _ _ _ (layout_entities _ _ _ _ _))).
  unfold Heap.bind, Heap.alloc, Heap.ret.
  rewrite length_app, layout_length, run_objects_length. cbn [length].
  fold n k. unfold Heap.layout. rewrite <- !app_assoc. cbn [app].
  replace (S (S (length h))) with (length h + 2) by lia.
  done.
Qed.

Lemma decompose_corpus_object_graph_witness :
  let cs := [TextChunk.new "Hinton invented backprop." "doc1.txt";
             TextChunk.new "LeCun developed convolutional nets." "doc2.txt"] in
  Heap.decompose_corpus sample_chunks [] =
  Some ([] ++ [Heap.OList (refs 3 1 2); Heap.ODict (kept_entity 3 2);
               Heap.OList (refs 3 5 2)]
          ++ run_objects 3 cs
          ++ [Heap.OList (dict_values (kept_entity 3 2));
              Heap.ODict [ (Heap.VStr "units", Heap.VRef 0);
                           (Heap.VStr "entities", Heap.VRef (3 + 7 * 2));
                           (Heap.VStr "relationships", Heap.VRef (0 + 2)) ]],
        inr (Heap.VRef (3 + 7 * 2 + 1))).
Proof.
  intros cs. apply (decompose_corpus_object_graph sample_chunks cs []).
  repeat constructor; vm_compute; reflexivity.
Defined.

(** The references of the example run: the units at 4 and 11, the
    relationships at 8 and 15, the one entity kept at 13 (the entity at 6,
    built for the first record, is referred to by its own list only). *)
Example sample_object_graph :
  refs 3 1 2 = [Heap.VRef 4; Heap.VRef 11] ∧
  refs 3 5 2 = [Heap.VRef 8; Heap.VRef 15] ∧
  kept_entity 3 2 = [(Heap.VStr "MockEntity", Heap.VRef 13)].
Proof. done. Qed.

(** X12. The unit extractor on any instance. It reads the attribute
    content, then the attribute source: when content is missing it raises
    an [AttributeError] for content, whether source is there or not; when
    only source is missing, an [AttributeError] for source; in both cases
    the store is left as it was. When both are there it allocates the unit,
    with whatever values the two attributes hold as its text and source,
    and the one-element list of the unit, whatever the class of the
    instance is. *)
Theorem extract_semantic_units_on_instance
    (h : Heap.heap) (a : Heap.addr) (c : Heap.cls) (attrs : gmap string Heap.value) :
  h !! a = Some (Heap.OInstance c attrs) →
  Heap.extract_semantic_units (Heap.VRef a) h =
  match attrs !! "content", attrs !! "source" with
  | Some cv, Some sv =>
      Some (h ++ [Heap.OInstance Heap.CSemanticUnit
                    (<["source" := sv]> (<["summary" := Heap.VStr "Mock summary"]>
                       (<["text" := cv]> ∅)));
                  Heap.OList [Heap.VRef (length h)]],
            inr (Heap.VRef (S (length h))))
  | None, _ => Some (h, inl (AttributeError "content"))
  | Some _, None => Some (h, inl (AttributeError "source"))
  end.
Proof.
  intros Ha.
  destruct (attrs !! "content") as [cv|] eqn:Hc.
  - destruct (attrs !! "source") as [sv|] eqn:Hs.
    + by apply extract_semantic_units_eq with (c := c) (attrs := attrs).
    + unfold Heap.extract_semantic_units.
      rewrite (bind_ret_eq _ _ _ _ _ (getattr_eq _ _ _ _ _ _ Ha Hc)).
      apply bind_raise_eq. unfold Heap.getattr.
      rewrite (bind_ret_eq _ _ _ _ _ (load_eq _ _ _ Ha)). by rewrite Hs.
  - apply bind_raise_eq. unfold Heap.getattr.
    rewrite (bind_ret_eq _ _ _ _ _ (load_eq _ _ _ Ha)). by rewrite Hc.
Qed.

Lemma extract_semantic_units_on_instance_witness :
  Heap.extract_semantic_units (Heap.VRef 0)
    [Heap.OInstance Heap.CSemanticUnit
       (<["source" := Heap.VStr "doc1.txt"]> (<["text" := Heap.VStr "t"]> ∅))]
  = Some ([Heap.OInstance Heap.CSemanticUnit
             (<["source" := Heap.VStr "doc1.txt"]> (<["text" := Heap.VStr "t"]> ∅))],
          inl (AttributeError "content")).
Proof.
  rewrite (extract_semantic_units_on_instance
             [Heap.OInstance Heap.CSemanticUnit
                (<["source" := Heap.VStr "doc1.txt"]> (<["text" := Heap.VStr "t"]> ∅))]
             0 Heap.CSemanticUnit
             (<["source" := Heap.VStr "doc1.txt"]> (<["text" := Heap.VStr "t"]> ∅)))
    by reflexivity.
  vm_compute. reflexivity.
Defined.

Lemma well_formed_record (d : gmap string string) (c s : string) :
  well_formed d → d !! "content" = Some c → d !! "source" = Some s →
  d = {[ "content" := c; "source" := s ]}.
Proof.
  intros Hwf Hc Hs. apply map_eq. intros k.
  destruct (decide (k = "content")) as [->|Hkc]; [by simplify_map_eq|].
  destruct (decide (k = "source")) as [->|Hks]; [by simplify_map_eq|].
  rewrite lookup_insert_ne by done. rewrite lookup_singleton_ne by done.
  apply not_elem_of_dom. rewrite Hwf. unfold TextChunk_params. set_solver.
Qed.

(** X13. The units of a result hold the whole input: on well-formed
    records the input is recovered from the units, record by record, by
    taking the text of a unit as content and its source as source. So two
    well-formed inputs with the same units are the same input. *)
Theorem units_recover_input (chunks : list (gmap string string)) :
  Forall well_formed chunks →
  ∃ r, decompose_corpus chunks = inr r ∧
       record_of_unit <$> units r = chunks ∧
       ∀ chunks' r', decompose_corpus chunks' = inr r' →
                     units r' = units r → chunks' = chunks.
Proof.
  intros Hwf.
  assert (Hrec : ∀ xs r, decompose_corpus xs = inr r →
                         record_of_unit <$> units r = xs).
  { intros xs r (cs & Hcs & ->)%decompose_corpus_inr. cbn [units].
    rewrite baseline_units, <- list_fmap_compose. unfold ingested in Hcs.
    induction Hcs as [|d c ds cs Hd _ IH]; [done|].
    rewrite fmap_cons, IH. f_equal.
    apply TextChunk_init_inr in Hd as (Hd & Hc & Hs).
    symmetry. by apply well_formed_record. }
  destruct (proj1 (ingested_well_formed chunks) Hwf) as [cs Hcs].
  assert (∃ r, decompose_corpus chunks = inr r) as [r Hr].
  { eexists. apply decompose_corpus_inr. eauto. }
  exists r. split_and!; [done|by apply Hrec|].
  intros chunks' r' Hr' Hunits.
  by rewrite <- (Hrec _ _ Hr'), <- (Hrec _ _ Hr), Hunits.
Qed.

Lemma units_recover_input_witness :
  ∃ r, decompose_corpus sample_chunks = inr r ∧
       record_of_unit <$> units r = sample_chunks ∧
       ∀ chunks' r', decompose_corpus chunks' = inr r' →
                     units r' = units r → chunks' = sample_chunks.
Proof.
  apply (units_recover_input sample_chunks).
  repeat constructor; vm_compute; reflexivity.
Defined.

(** The reasons of the binding on four records: a field named page, a
    field named self, both, and self with the source left out. *)
Example bind_keywords_examples :
  bind_keywords {[ "content" := "a"; "source" := "b"; "page" := "3" ]}
    = Some UnexpectedKeyword ∧
  bind_keywords {[ "self" := "x"; "content" := "a"; "source" := "b" ]}
    = Some MultipleValues ∧
  bind_keywords {[ "self" := "x"; "page" := "3" ]} = Some UnexpectedOrMultiple ∧
  TextChunk_init {[ "self" := "x"; "content" := "a" ]} = inl (TypeError MultipleValues) ∧
  bind_keywords {[ "content" := "a" ]} = None.
Proof. vm_compute. done. Qed.
